(** * Spin Cycle job runner: the runner factory and the API controllers

    A shallow embedding of [job-runner/runner/factory.go] and
    [job-runner/api/api.go], with the properties of the factory and of the
    four job-chain controllers. *)

From stdpp Require Import gmap strings list fin_maps relations pretty.

(** ** Shared conventions

    A Go [error] value is represented by its [Error()] text, a [[]byte] by a
    list of bytes, and a Go [(value, error)] result whose error is checked
    before the value is used by [result]. *)

Definition bytes : Type := list Byte.byte.
Definition error : Type := string.

Inductive result (A : Type) : Type :=
| Ok (a : A)
| Err (e : error).
Arguments Ok {A} a.
Arguments Err {A} e.

(** * Package [runner] *)

Module runner.

(** The calls a factory can make on its collaborators.  The job contract
    is {deserialize, run, stop, status}; [jobFactory.Make] and
    [NewJobRunner] only build objects. *)
Inductive Call : Type :=
| CallJobFactoryMake (jobType jobName : string)
| CallDeserialize (jobBytes : bytes)
| CallRun
| CallStop
| CallStatus
| CallNewJobRunner (requestId : N).

(** Computations that log their calls, in program order. *)
Definition M (A : Type) : Type := list Call → A * list Call.

#[global] Instance M_ret : MRet M := λ A a log, (a, log).
#[global] Instance M_bind : MBind M := λ A B k c log,
  let '(a, log') := c log in k a log'.

Definition call {A : Type} (c : Call) (a : A) : M A :=
  λ log, (a, log ++ [c]).

Section factory.
(** [job.Job]: an opaque, stateful job object. *)
Context {Job : Type}.

(** [job.Job.Deserialize]: restores the receiver from the bytes; gives
    the restored job and the error, if any. *)
Variable Deserialize : bytes → Job → Job * option error.

(** [job.Factory]: an interface with one method,
    [Make(jobType, jobName) (Job, error)]. *)
Record Factory : Type := { Factory_Make : string → string → result Job }.

(** Modelled from the spec: the runner type is not in the factory's
    file; the Job Runner Wrapper owns exactly one job and is bound to the
    request id. *)
Record JobRunner : Type := { job : Job; requestId : N }.

(** Modelled from the spec: [NewJobRunner] is not in the factory's file
    either; building the wrapper is object construction and starts
    nothing. *)
Definition NewJobRunner (j : Job) (reqId : N) : M JobRunner :=
  call (CallNewJobRunner reqId) {| job := j; requestId := reqId |}.

Record runnerFactory : Type := { jobFactory : Factory }.

Definition NewRunnerFactory (jf : Factory) : runnerFactory :=
  {| jobFactory := jf |}.

(** [Make]: the Go pair [(Runner, error)], [None] standing for nil. *)
Definition Make (f : runnerFactory) (jobType jobName : string)
    (jobBytes : bytes) (reqId : N) : M (option JobRunner * option error) :=
  r ← call (CallJobFactoryMake jobType jobName)
         (Factory_Make (jobFactory f) jobType jobName);
  match r with
  | Err err => mret (None, Some err)
  | Ok j =>
      '(j', e) ← call (CallDeserialize jobBytes) (Deserialize jobBytes j);
      match e with
      | Some err => mret (None, Some err)
      | None => rn ← NewJobRunner j' reqId; mret (Some rn, None)
      end
  end.

(** What one call of [Make] returns and what it calls. *)
Definition Make_result f jobType jobName jobBytes reqId :=
  fst (Make f jobType jobName jobBytes reqId []).
Definition Make_calls f jobType jobName jobBytes reqId :=
  snd (Make f jobType jobName jobBytes reqId []).

End factory.

Arguments Factory Job : clear implicits.
Arguments JobRunner Job : clear implicits.
Arguments runnerFactory Job : clear implicits.

(** ** A job type registry

    Modelled from the spec: the job package is not part of these files; a
    flat registry of constructors per job-type tag, with an
    unknown-job-type error for an absent tag. *)
Definition registryFactory {Job : Type}
    (constructors : gmap string (string → Job)) : Factory Job :=
  {| Factory_Make := λ jobType jobName,
       match constructors !! jobType with
       | Some mk => Ok (mk jobName)
       | None => Err ("unknown job type: " +:+ jobType)
       end |}.

End runner.

(** * Package [proto]: the job chain as it arrives

    The message types are not part of these files; they follow the data
    model of the spec. *)

Module proto.

(** Modelled from the spec: the status of a job node, one of five. *)
Inductive Status : Type := Pending | Running | Complete | Fail | Stopped.

(** Modelled from the spec: a job node, with its identifier, type tag,
    display name, serialized state, predecessor and successor identifiers
    and status. *)
Record Job : Type := {
  Id : string;
  Type_ : string;
  Name : string;
  Bytes : bytes;
  Predecessors : list string;
  Successors : list string;
  State : Status
}.

(** Modelled from the spec: the chain message, with the request
    identifier, which the sender may have left out, and the nodes by
    identifier. *)
Record JobChain : Type := {
  RequestId : option N;
  Jobs : gmap string Job
}.

End proto.

(** * Package [chain]: chains, traversers and the traverser registry

    None of this package is part of these files; the controllers only call
    it.  Its parts are modelled from the spec. *)

Module chain.
Import proto.

(** Modelled from the spec: the chain built from the message. *)
Record chain : Type := { JobChain_ : JobChain }.

(** Modelled from the spec: [NewChain] wraps the decoded message.  The
    controller receives a chain and no error from it. *)
Definition NewChain (jc : JobChain) : chain := {| JobChain_ := jc |}.

(** Modelled from the spec: the accessor of the owning request
    identifier, an unsigned integer; an absent one reads as zero. *)
Definition RequestId (c : chain) : N := default 0%N (proto.RequestId (JobChain_ c)).

(** ** Validation of the node set *)

(** Modelled from the spec: the graph of a chain; [u] is declared to come
    before [v], by [u]'s successors or by [v]'s predecessors. *)
Definition edge (jc : JobChain) (u v : string) : Prop :=
  (∃ j, Jobs jc !! u = Some j ∧ v ∈ Successors j) ∨
  (∃ j, Jobs jc !! v = Some j ∧ u ∈ Predecessors j).

(** Modelled from the spec: the three defects of a chain specification,
    a cycle, a reference to a job that is not a node of the chain, and no
    request identifier. *)
Definition has_cycle (jc : JobChain) : Prop := ∃ v, tc (edge jc) v v.

Definition has_dangling_reference (jc : JobChain) : Prop :=
  ∃ u j v, Jobs jc !! u = Some j ∧ v ∈ Predecessors j ++ Successors j ∧
           Jobs jc !! v = None.

Definition missing_request_id (jc : JobChain) : Prop :=
  proto.RequestId jc = None.

Definition malformed (jc : JobChain) : Prop :=
  has_cycle jc ∨ has_dangling_reference jc ∨ missing_request_id jc.

(** The checks that decide them. *)
Definition edgeb (jc : JobChain) (u v : string) : bool :=
  match Jobs jc !! u with
  | Some j => bool_decide (v ∈ Successors j)
  | None => false
  end
  ||
  match Jobs jc !! v with
  | Some j => bool_decide (u ∈ Predecessors j)
  | None => false
  end.

Definition references_resolve (jc : JobChain) : bool :=
  forallb (λ kj : string * Job,
             forallb (λ v, bool_decide (is_Some (Jobs jc !! v)))
                     (Predecessors kj.2 ++ Successors kj.2))
          (map_to_list (Jobs jc)).

(** One round per unit of fuel: the nodes with no predecessor among the
    remaining ones are finished and leave. *)
Fixpoint unfinished (jc : JobChain) (fuel : nat) (remaining : list string)
    : list string :=
  match fuel with
  | O => remaining
  | S fuel' =>
      unfinished jc fuel'
        (List.filter (λ v, existsb (λ u, edgeb jc u v) remaining) remaining)
  end.

Definition node_ids (jc : JobChain) : list string :=
  (map_to_list (Jobs jc)).*1.

Definition acyclic (jc : JobChain) : bool :=
  bool_decide (unfinished jc (length (node_ids jc)) (node_ids jc) = []).

(** Modelled from the spec: every predecessor and successor resolves to a
    node of the chain, the graph is acyclic and the request identifier is
    present; otherwise a malformed-chain error. *)
Definition Validate (c : chain) : option error :=
  let jc := JobChain_ c in
  if negb (bool_decide (is_Some (proto.RequestId jc))) then
    Some "malformed chain: no request id"
  else if negb (references_resolve jc) then
    Some "malformed chain: reference to a job that is not in the chain"
  else if negb (acyclic jc) then
    Some "malformed chain: cycle"
  else None.

(** ** The traverser *)

(** Modelled from the spec: the states of a traversal, Created, running
    and the three terminal ones (Complete, Failed, Stopped), and the
    traverser with its chain and its stop flag. *)
Inductive TraverserState : Type :=
| Created | Traversing | Completed | Failed | Halted.

Record traverser : Type := {
  t_chain : chain;
  t_state : TraverserState;
  t_stop : bool
}.

(** Modelled from the spec: the terminal states. *)
Definition terminal (t : traverser) : bool :=
  match t_state t with
  | Completed | Failed | Halted => true
  | Created | Traversing => false
  end.

(** Modelled from the spec: the validation happens when the request
    layer builds the traverser, the one construction step of the
    controller that can return an error; a rejected chain gives no
    traverser. *)
Definition NewTraverser {Repo RunnerFactory : Type}
    (repo : Repo) (rf : RunnerFactory) (c : chain) : result traverser :=
  match Validate c with
  | Some err => Err err
  | None => Ok {| t_chain := c; t_state := Created; t_stop := false |}
  end.

(** Modelled from the spec: [Stop] sets the stop flag and returns at
    once, without waiting for the traversal to drain; on a terminal
    traverser it does nothing. *)
Definition Stop (t : traverser) : traverser * option error :=
  if terminal t then (t, None)
  else ({| t_chain := t_chain t; t_state := t_state t; t_stop := true |}, None).

(** Modelled from the spec: [Run] blocks for the whole traversal, so it
    is split in its entry (Created to running; a latched terminal state
    stays) and its return (running to a terminal state: stopped when the
    flag was raised meanwhile, else what the jobs made of it). *)
Definition Run_enter (t : traverser) : traverser :=
  match t_state t with
  | Created => {| t_chain := t_chain t; t_state := Traversing; t_stop := t_stop t |}
  | _ => t
  end.

Definition Run_return (jobs_succeed : chain → bool) (t : traverser) : traverser :=
  match t_state t with
  | Traversing =>
      {| t_chain := t_chain t;
         t_state := if t_stop t then Halted
                    else if jobs_succeed (t_chain t) then Completed else Failed;
         t_stop := t_stop t |}
  | _ => t
  end.

(** Modelled from the spec: a snapshot of the status of every job and of
    the whole traversal. *)
Definition JobChainStatus : Type := gmap string Status * TraverserState.

Definition Status_ (t : traverser) : result JobChainStatus :=
  Ok (State <$> Jobs (JobChain_ (t_chain t)), t_state t).

(** ** The traverser registry *)

(** Modelled from the spec: the registry maps a request identifier to a
    traverser, held by reference, and starts empty. *)
Abbreviation TraverserRepo := (gmap string nat).

Definition NewTraverserRepo : TraverserRepo := ∅.

(** Modelled from the spec: [Add] fails with an already-exists error when
    the key is occupied, and files the traverser otherwise. *)
Definition Add (id : string) (t : nat) (r : TraverserRepo)
    : TraverserRepo * option error :=
  match r !! id with
  | Some _ => (r, Some "traverser already exists")
  | None => (<[id := t]> r, None)
  end.

(** Modelled from the spec: [Get] fails with a not-found error when the
    key is absent. *)
Definition Get (id : string) (r : TraverserRepo) : result nat :=
  match r !! id with
  | Some t => Ok t
  | None => Err "traverser not found"
  end.

(** Modelled from the spec: [Remove] is idempotent. *)
Definition Remove (id : string) (r : TraverserRepo) : TraverserRepo :=
  delete id r.

End chain.

(** * Package [router]: what a controller sees of a request

    The router package is not part of these files.  A controller reads the
    method, the body and the arguments captured by the route pattern, and
    acts on the context by reporting an API error, refusing the method,
    setting a response header or writing a line of the response; these
    actions are recorded in order. *)

Module router.

Inductive ErrorKind : Type := ErrInternal | ErrBadRequest | ErrNotFound.

Record Request : Type := { Method : string; Body : string }.

Record HTTPContext : Type := {
  Request_ : Request;
  Arguments : list string
}.

Inductive Reply : Type :=
| APIError (kind : ErrorKind) (message : string)
| UnsupportedAPIMethod
| HeaderSet (key value : string)
| Fprintln (line : string).

(** The caller is answered with an error when the controller reported
    one. *)
Definition reports_error (out : list Reply) : Prop :=
  ∃ kind message, APIError kind message ∈ out.

End router.

(** * Package [api]: the controllers *)

Module api.
Import router.

Definition API_ROOT : string := "/api/v1/".
Definition REQUEST_ID_PATTERN : string := "([0-9]+)".

(** The conversion [uint64(x)] and [strconv.FormatUint(x, 10)]. *)
Definition uint64 (x : N) : N := (x mod 2 ^ 64)%N.
Definition FormatUint10 (x : N) : string := pretty x.

(** [fmt]'s expansion of the one [%s] of the controllers' messages. *)
Definition Sprintf1 (before after : string) (arg : string) : string :=
  before +:+ arg +:+ after.

(** [chainLocation] returns the URL location of a job chain.  The error
    of [hostname] is dropped. *)
Definition chainLocation (requestId : string)
    (hostname : unit → string * option error) : string :=
  let '(h, _) := hostname () in
  ((h +:+ API_ROOT) +:+ "job-chains/") +:+ requestId.

(** The registry key of a decoded chain: the [requestIdStr] of the
    new-job-chain controller. *)
Definition requestIdStr_of (jc : proto.JobChain) : string :=
  FormatUint10 (uint64 (chain.RequestId (chain.NewChain jc))).

(** The controllers a route leads to. *)
Inductive Controller : Type :=
| newJobChain | startJobChain | stopJobChain | statusJobChain.

Record Route : Type := {
  pattern : string;
  controller : Controller;
  route_name : string
}.

(** The goroutine started by the start controller:
    [traverser.Run(); api.traverserRepo.Remove(requestIdStr)].  [Run]
    blocks, so the goroutine is at one of four points. *)
Inductive Point : Type := Spawned | InRun | RunReturned | Finished.

Record Goroutine : Type := {
  g_traverser : nat;
  g_requestIdStr : string;
  g_point : Point
}.

Section controllers.
(** The collaborators behind the controllers: the chain repository, the
    runner factory, the traverser and its status report. *)
Context {Repo RunnerFactory T JobChainStatus : Type}.

(** [json.NewDecoder(body).Decode(&jobChain)] and [json.MarshalIndent]. *)
Variable json_Decode : string → result proto.JobChain.
Variable json_MarshalIndent : JobChainStatus → result string.
(** [os.Hostname]. *)
Variable os_Hostname : unit → string * option error.
(** [chain.NewTraverser] and the traverser's methods; the blocking [Run]
    by its entry and its return. *)
Variable NewTraverser : Repo → RunnerFactory → chain.chain → result T.
Variable Run_enter : T → T.
Variable Run_return : T → T.
Variable Stop : T → T * option error.
Variable Status : T → result JobChainStatus.

(** The package variable [hostname], set to [os.Hostname]. *)
Definition hostname : unit → string * option error := os_Hostname.

(** [marshal] is a helper function to nicely print JSON. *)
Definition marshal (v : JobChainStatus) : result string := json_MarshalIndent v.

Record API : Type := {
  Router : list Route;
  chainRepo : Repo;
  runnerFactory : RunnerFactory;
  traverserRepo : chain.TraverserRepo
}.

(** [NewAPI] makes a new API and registers its four routes. *)
Definition NewAPI (routes : list Route) (cr : Repo) (rf : RunnerFactory) : API :=
  {| Router := routes ++
       [ {| pattern := API_ROOT +:+ "job-chains";
            controller := newJobChain; route_name := "api-new-job-chain" |};
         {| pattern := ((API_ROOT +:+ "job-chains/") +:+ REQUEST_ID_PATTERN) +:+ "/start";
            controller := startJobChain; route_name := "api-start-job-chain" |};
         {| pattern := ((API_ROOT +:+ "job-chains/") +:+ REQUEST_ID_PATTERN) +:+ "/stop";
            controller := stopJobChain; route_name := "api-stop-job-chain" |};
         {| pattern := ((API_ROOT +:+ "job-chains/") +:+ REQUEST_ID_PATTERN) +:+ "/status";
            controller := statusJobChain; route_name := "api-status-job-chain" |} ];
     chainRepo := cr;
     runnerFactory := rf;
     traverserRepo := chain.NewTraverserRepo |}.

(** The process: the API, the traversers it points to (a traverser is the
    index of its cell) and the goroutines started so far. *)
Record World : Type := {
  api_ : API;
  traversers : list T;
  goroutines : list Goroutine
}.

Definition with_traverserRepo (r : chain.TraverserRepo) (w : World) : World :=
  {| api_ := {| Router := Router (api_ w); chainRepo := chainRepo (api_ w);
                runnerFactory := runnerFactory (api_ w); traverserRepo := r |};
     traversers := traversers w;
     goroutines := goroutines w |}.

Definition with_traversers (ts : list T) (w : World) : World :=
  {| api_ := api_ w; traversers := ts; goroutines := goroutines w |}.

Definition with_goroutines (gs : list Goroutine) (w : World) : World :=
  {| api_ := api_ w; traversers := traversers w; goroutines := gs |}.

(** [go func() { ... }()]. *)
Definition spawn (g : Goroutine) (w : World) : World :=
  with_goroutines (goroutines w ++ [g]) w.

Definition registry (w : World) : chain.TraverserRepo := traverserRepo (api_ w).

(** A controller gives the process after it and its actions on the
    context; [None] is a run-time panic (an index out of range). *)
Definition Outcome : Type := option (World * list Reply).

(** POST <API_ROOT>/job-chains *)
Definition newJobChainHandler (ctx : HTTPContext) (w : World) : Outcome :=
  if decide (Method (Request_ ctx) = "POST") then
    match json_Decode (Body (Request_ ctx)) with
    | Err err =>
        Some (w, [APIError ErrInternal
                    (Sprintf1 "Can't decode request body (error: " ")" err)])
    | Ok jobChain =>
        let c := chain.NewChain jobChain in
        let requestIdStr := FormatUint10 (uint64 (chain.RequestId c)) in
        match NewTraverser (chainRepo (api_ w)) (runnerFactory (api_ w)) c with
        | Err err =>
            Some (w, [APIError ErrBadRequest
                        (Sprintf1 "Problem creating traverser (error: " ")" err)])
        | Ok t =>
            let traverser := length (traversers w) in
            let w1 := with_traversers (traversers w ++ [t]) w in
            match chain.Add requestIdStr traverser (registry w1) with
            | (_, Some err) => Some (w1, [APIError ErrBadRequest err])
            | (r, None) => Some (with_traverserRepo r w1, [])
            end
        end
    end
  else Some (w, [UnsupportedAPIMethod]).

(** PUT <API_ROOT>/job-chains/{requestId}/start *)
Definition startJobChainHandler (ctx : HTTPContext) (w : World) : Outcome :=
  if decide (Method (Request_ ctx) = "PUT") then
    requestIdStr ← Arguments ctx !! 1;
    match chain.Get requestIdStr (registry w) with
    | Err err =>
        Some (w, [APIError ErrNotFound
                    (Sprintf1 "Can't retrieve traverser from repo (error: " ")." err)])
    | Ok traverser =>
        Some (spawn {| g_traverser := traverser;
                       g_requestIdStr := requestIdStr;
                       g_point := Spawned |} w,
              [HeaderSet "Location" (chainLocation requestIdStr os_Hostname)])
    end
  else Some (w, [UnsupportedAPIMethod]).

(** PUT <API_ROOT>/job-chains/{requestId}/stop *)
Definition stopJobChainHandler (ctx : HTTPContext) (w : World) : Outcome :=
  if decide (Method (Request_ ctx) = "PUT") then
    requestIdStr ← Arguments ctx !! 1;
    match chain.Get requestIdStr (registry w) with
    | Err err =>
        Some (w, [APIError ErrNotFound
                    (Sprintf1 "Can't retrieve traverser from repo (error: " ")." err)])
    | Ok traverser =>
        t ← traversers w !! traverser;
        let '(t', err) := Stop t in
        let w1 := with_traversers (<[traverser := t']> (traversers w)) w in
        match err with
        | Some err =>
            Some (w1, [APIError ErrInternal
                         (Sprintf1 "Can't stop the chain (error: " ")" err)])
        | None =>
            Some (with_traverserRepo (chain.Remove requestIdStr (registry w1)) w1, [])
        end
    end
  else Some (w, [UnsupportedAPIMethod]).

(** GET <API_ROOT>/job-chains/{requestId}/status *)
Definition statusJobChainHandler (ctx : HTTPContext) (w : World) : Outcome :=
  if decide (Method (Request_ ctx) = "GET") then
    requestIdStr ← Arguments ctx !! 1;
    match chain.Get requestIdStr (registry w) with
    | Err err =>
        Some (w, [APIError ErrNotFound
                    (Sprintf1 "Can't retrieve traverser from repo (error: " ")." err)])
    | Ok traverser =>
        t ← traversers w !! traverser;
        match Status t with
        | Err err =>
            Some (w, [APIError ErrInternal
                        (Sprintf1 "Can't get the chain's status (error: " ")" err)])
        | Ok statuses =>
            match marshal statuses with
            | Err err =>
                Some (w, [APIError ErrInternal
                            (Sprintf1 "Can't encode response (error: " ")" err)])
            | Ok out => Some (w, [Fprintln out])
            end
        end
    end
  else Some (w, [UnsupportedAPIMethod]).

(** One move of the [i]-th goroutine: it enters [Run], [Run] returns, it
    removes the request from the registry, and then it is over. *)
Definition set_point (i : nat) (g : Goroutine) (p : Point) (w : World) : World :=
  with_goroutines
    (<[i := {| g_traverser := g_traverser g;
               g_requestIdStr := g_requestIdStr g;
               g_point := p |}]> (goroutines w)) w.

Definition go_step (i : nat) (w : World) : option World :=
  g ← goroutines w !! i;
  match g_point g with
  | Spawned =>
      t ← traversers w !! g_traverser g;
      Some (set_point i g InRun
              (with_traversers (<[g_traverser g := Run_enter t]> (traversers w)) w))
  | InRun =>
      t ← traversers w !! g_traverser g;
      Some (set_point i g RunReturned
              (with_traversers (<[g_traverser g := Run_return t]> (traversers w)) w))
  | RunReturned =>
      Some (set_point i g Finished
              (with_traverserRepo (chain.Remove (g_requestIdStr g) (registry w)) w))
  | Finished => None
  end.

(** What can happen next in the process: a request reaches its controller
    or a goroutine moves. *)
Inductive Action : Type :=
| Serve (c : Controller) (ctx : HTTPContext)
| Move (i : nat).

Definition step (a : Action) (w : World) : Outcome :=
  match a with
  | Serve newJobChain ctx => newJobChainHandler ctx w
  | Serve startJobChain ctx => startJobChainHandler ctx w
  | Serve stopJobChain ctx => stopJobChainHandler ctx w
  | Serve statusJobChain ctx => statusJobChainHandler ctx w
  | Move i => w' ← go_step i w; Some (w', [])
  end.

Fixpoint run (actions : list Action) (w : World) : option World :=
  match actions with
  | [] => Some w
  | a :: rest => r ← step a w; run rest r.1
  end.

End controllers.

Arguments API : clear implicits.
Arguments World : clear implicits.

(** The one method each controller serves. *)
Definition verb (c : Controller) : string :=
  match c with
  | newJobChain => "POST"
  | startJobChain | stopJobChain => "PUT"
  | statusJobChain => "GET"
  end.

(** How far a goroutine has come. *)
Definition progress (p : Point) : nat :=
  match p with
  | Spawned => 0
  | InRun => 1
  | RunReturned => 2
  | Finished => 3
  end.

Section process_shape.
Context {Repo RunnerFactory T : Type}.

(** Every traverser that the registry or a goroutine points to is a cell
    of the process. *)
Definition well_formed (w : World Repo RunnerFactory T) : Prop :=
  (∀ id t, registry w !! id = Some t → t < length (traversers w)) ∧
  (∀ i g, goroutines w !! i = Some g → g_traverser g < length (traversers w)).

(** The process right after [NewAPI]. *)
Definition fresh (routes : list Route) (cr : Repo) (rf : RunnerFactory)
    : World Repo RunnerFactory T :=
  {| api_ := NewAPI routes cr rf; traversers := []; goroutines := [] |}.

End process_shape.

End api.

(** * A small runner process to run the definitions on *)

Module demo.
Import proto router.

(** ** A job type for the factory *)

Record shellJob : Type := { sj_name : string; sj_command : bytes }.

(** The job restores its command from the bytes and rejects an empty
    blob. *)
Definition Deserialize (b : bytes) (j : shellJob) : shellJob * option error :=
  match b with
  | [] => (j, Some "deserialization: empty state")
  | _ => ({| sj_name := sj_name j; sj_command := b |}, None)
  end.

Definition constructors : gmap string (string → shellJob) :=
  {[ "shell-command" := λ name, {| sj_name := name; sj_command := [] |} ]}.

Definition factory : runner.runnerFactory shellJob :=
  runner.NewRunnerFactory (runner.registryFactory constructors).

Definition ls : bytes := [Byte.x6c; Byte.x73].

(** ** Chains *)

Definition node (id : string) (preds succs : list string) : Job :=
  {| Id := id; Type_ := "shell-command"; Name := id; Bytes := ls;
     Predecessors := preds; Successors := succs; State := Pending |}.

Definition nodes (l : list Job) : gmap string Job :=
  list_to_map ((λ j, (Id j, j)) <$> l).

(** A to B and C, B and C to D. *)
Definition diamond : JobChain :=
  {| proto.RequestId := Some 7%N;
     Jobs := nodes [ node "A" [] ["B"; "C"]; node "B" ["A"] ["D"];
                     node "C" ["A"] ["D"]; node "D" ["B"; "C"] [] ] |}.

(** A to B to C and back to A. *)
Definition cyclic : JobChain :=
  {| proto.RequestId := Some 8%N;
     Jobs := nodes [ node "A" ["C"] ["B"]; node "B" ["A"] ["C"];
                     node "C" ["B"] ["A"] ] |}.

(** A names a successor that is not in the chain. *)
Definition dangling : JobChain :=
  {| proto.RequestId := Some 9%N;
     Jobs := nodes [ node "A" [] ["Z"] ] |}.

(** One job, no edge. *)
Definition solo : JobChain :=
  {| proto.RequestId := Some 10%N;
     Jobs := nodes [ node "A" [] [] ] |}.

Definition anonymous : JobChain :=
  {| proto.RequestId := None;
     Jobs := nodes [ node "A" [] [] ] |}.

(** ** The collaborators of the controllers *)

(** The decoder, on the bodies used here. *)
Definition json_Decode (body : string) : result JobChain :=
  if decide (body = "diamond") then Ok diamond
  else if decide (body = "cyclic") then Ok cyclic
  else if decide (body = "dangling") then Ok dangling
  else if decide (body = "anonymous") then Ok anonymous
  else Err "unexpected end of JSON input".

(** The same decoder, which also knows the body of the chain of one job. *)
Definition json_Decode_solo (body : string) : result JobChain :=
  if decide (body = "solo") then Ok solo else json_Decode body.

Definition json_MarshalIndent (s : chain.JobChainStatus) : result string :=
  Ok "{}".

Definition os_Hostname (_ : unit) : string * option error := ("runner-1", None).
Definition no_Hostname (_ : unit) : string * option error :=
  ("", Some "hostname: not set").

Definition jobs_succeed (_ : chain.chain) : bool := true.

(** A traverser whose [Stop] fails. *)
Definition stuck_Stop (t : chain.traverser) : chain.traverser * option error :=
  (t, Some "job does not respond").

Abbreviation World := (api.World unit unit chain.traverser).

Definition newJobChainHandler : HTTPContext → World → option (World * list Reply) :=
  api.newJobChainHandler json_Decode chain.NewTraverser.
Definition startJobChainHandler : HTTPContext → World → option (World * list Reply) :=
  api.startJobChainHandler os_Hostname.
Definition stopJobChainHandler : HTTPContext → World → option (World * list Reply) :=
  api.stopJobChainHandler chain.Stop.
Definition statusJobChainHandler : HTTPContext → World → option (World * list Reply) :=
  api.statusJobChainHandler json_MarshalIndent chain.Status_.
Definition step : api.Action → World → option (World * list Reply) :=
  api.step json_Decode json_MarshalIndent os_Hostname chain.NewTraverser
    chain.Run_enter (chain.Run_return jobs_succeed) chain.Stop chain.Status_.
Definition run : list api.Action → World → option World :=
  api.run json_Decode json_MarshalIndent os_Hostname chain.NewTraverser
    chain.Run_enter (chain.Run_return jobs_succeed) chain.Stop chain.Status_.

(** The process after [NewAPI]. *)
Definition start_up : World :=
  {| api.api_ := api.NewAPI [] () (); api.traversers := []; api.goroutines := [] |}.

Definition post (body : string) : HTTPContext :=
  {| Request_ := {| Method := "POST"; Body := body |};
     Arguments := ["/api/v1/job-chains"] |}.

Definition put (verb id : string) : HTTPContext :=
  {| Request_ := {| Method := "PUT"; Body := "" |};
     Arguments := ["/api/v1/job-chains/" +:+ id +:+ "/" +:+ verb; id] |}.

(** A request that reached a controller with no captured argument. *)
Definition bare (method : string) : HTTPContext :=
  {| Request_ := {| Method := method; Body := "" |}; Arguments := [] |}.

(** The traverser built for a chain that passes the validation. *)
Definition created (jc : JobChain) : chain.traverser :=
  {| chain.t_chain := chain.NewChain jc;
     chain.t_state := chain.Created;
     chain.t_stop := false |}.

Definition get (verb id : string) : HTTPContext :=
  {| Request_ := {| Method := "GET"; Body := "" |};
     Arguments := ["/api/v1/job-chains/" +:+ id +:+ "/" +:+ verb; id] |}.

(** The process after some moves from start-up. *)
Definition after (moves : list api.Action) : World :=
  default start_up (run moves start_up).

(** The diamond is registered under "7"; then started, with its goroutine
    inside [Run]. *)
Definition registered : World :=
  after [api.Serve api.newJobChain (post "diamond")].

Definition running : World :=
  after [api.Serve api.newJobChain (post "diamond");
         api.Serve api.startJobChain (put "start" "7");
         api.Move 0].

(** The diamond is registered and a start request has been served. *)
Definition started : World :=
  after [api.Serve api.newJobChain (post "diamond");
         api.Serve api.startJobChain (put "start" "7")].

(** The diamond is registered and started, and [Run] has returned. *)
Definition returned : World :=
  after [api.Serve api.newJobChain (post "diamond");
         api.Serve api.startJobChain (put "start" "7");
         api.Move 0; api.Move 0].

(** And then stopped. *)
Definition stopped : World :=
  after [api.Serve api.newJobChain (post "diamond");
         api.Serve api.startJobChain (put "start" "7");
         api.Move 0;
         api.Serve api.stopJobChain (put "stop" "7")].

End demo.


(** * Properties of the runner factory *)

Section factory_properties.
Import runner.
Context {Job : Type}.
Variable Deserialize : bytes → Job → Job * option error.

Implicit Types (f : runnerFactory Job) (jobType jobName : string)
  (jobBytes : bytes) (reqId : N).

(** [Make] by cases on what its two collaborators answer. *)
Lemma Make_lookup_fails f jobType jobName jobBytes reqId log e :
  Factory_Make (jobFactory f) jobType jobName = Err e →
  Make Deserialize f jobType jobName jobBytes reqId log =
    ((None, Some e), log ++ [CallJobFactoryMake jobType jobName]).
Proof. intros H. unfold Make, mbind, M_bind, call. by rewrite H. Qed.

Lemma Make_restore_fails f jobType jobName jobBytes reqId log j e :
  Factory_Make (jobFactory f) jobType jobName = Ok j →
  (Deserialize jobBytes j).2 = Some e →
  Make Deserialize f jobType jobName jobBytes reqId log =
    ((None, Some e),
     (log ++ [CallJobFactoryMake jobType jobName]) ++ [CallDeserialize jobBytes]).
Proof.
  intros H1 H2. unfold Make, mbind, M_bind, call. rewrite H1.
  destruct (Deserialize jobBytes j) as [j' e']; simpl in *. by subst e'.
Qed.

Lemma Make_succeeds f jobType jobName jobBytes reqId log j :
  Factory_Make (jobFactory f) jobType jobName = Ok j →
  (Deserialize jobBytes j).2 = None →
  Make Deserialize f jobType jobName jobBytes reqId log =
    ((Some {| job := (Deserialize jobBytes j).1; requestId := reqId |}, None),
     ((log ++ [CallJobFactoryMake jobType jobName]) ++ [CallDeserialize jobBytes])
       ++ [CallNewJobRunner reqId]).
Proof.
  intros H1 H2. unfold Make, mbind, M_bind, call, NewJobRunner, call.
  rewrite H1. destruct (Deserialize jobBytes j) as [j' e']; simpl in *.
  by subst e'.
Qed.

(** The three cases are all there is. *)
Inductive Make_case f jobType jobName jobBytes reqId : Prop :=
| lookup_fails e
    (Hmake : Factory_Make (jobFactory f) jobType jobName = Err e)
    (Hres : Make_result Deserialize f jobType jobName jobBytes reqId = (None, Some e))
    (Hcalls : Make_calls Deserialize f jobType jobName jobBytes reqId =
              [CallJobFactoryMake jobType jobName])
| restore_fails j e
    (Hmake : Factory_Make (jobFactory f) jobType jobName = Ok j)
    (Hdes : (Deserialize jobBytes j).2 = Some e)
    (Hres : Make_result Deserialize f jobType jobName jobBytes reqId = (None, Some e))
    (Hcalls : Make_calls Deserialize f jobType jobName jobBytes reqId =
              [CallJobFactoryMake jobType jobName; CallDeserialize jobBytes])
| succeeds j
    (Hmake : Factory_Make (jobFactory f) jobType jobName = Ok j)
    (Hdes : (Deserialize jobBytes j).2 = None)
    (Hres : Make_result Deserialize f jobType jobName jobBytes reqId =
            (Some {| job := (Deserialize jobBytes j).1; requestId := reqId |}, None))
    (Hcalls : Make_calls Deserialize f jobType jobName jobBytes reqId =
              [CallJobFactoryMake jobType jobName; CallDeserialize jobBytes;
               CallNewJobRunner reqId]).

Lemma Make_cases f jobType jobName jobBytes reqId :
  Make_case f jobType jobName jobBytes reqId.
Proof.
  destruct (Factory_Make (jobFactory f) jobType jobName) as [j|e] eqn:H1.
  - destruct (Deserialize jobBytes j).2 as [e|] eqn:H2.
    + eapply restore_fails; eauto; unfold Make_result, Make_calls;
        by erewrite Make_restore_fails.
    + eapply succeeds; eauto; unfold Make_result, Make_calls;
        by erewrite Make_succeeds.
  - eapply lookup_fails; eauto; unfold Make_result, Make_calls;
      by erewrite Make_lookup_fails.
Qed.

(** C2. [Make] returns an error if and only if the job-type lookup fails
    or the job rejects the bytes it is asked to restore itself from, and
    the error is the one of the failing call; in every other case it
    returns a runner and no error. *)
Theorem Make_error_iff f jobType jobName jobBytes reqId :
  let res := Make_result Deserialize f jobType jobName jobBytes reqId in
  (is_Some res.2 ↔
     (∃ e, Factory_Make (jobFactory f) jobType jobName = Err e) ∨
     (∃ j e, Factory_Make (jobFactory f) jobType jobName = Ok j ∧
             (Deserialize jobBytes j).2 = Some e)) ∧
  match Factory_Make (jobFactory f) jobType jobName with
  | Err e => res = (None, Some e)
  | Ok j =>
      match (Deserialize jobBytes j).2 with
      | Some e => res = (None, Some e)
      | None => ∃ rn, res = (Some rn, None)
      end
  end.
Proof.
  cbv zeta.
  destruct (Make_cases f jobType jobName jobBytes reqId);
    rewrite Hres, Hmake; try rewrite Hdes; simpl; split; eauto.
  - split; [intros _; left; eauto | eauto].
  - split; [intros _; right; eauto | eauto].
  - split; [intros [? [=]] | ].
    intros [[e [=]] | (j' & e & [= <-] & He)]. congruence.
Qed.

(** C3. A successful [Make] returns a runner bound to the request id
    given, around the job that the job factory built for the type and name
    and that then restored itself from the bytes; it has called the job
    factory, the restoration once and the runner's constructor, and on no
    path does it call the job's run operation. *)
Theorem Make_success_runner f jobType jobName jobBytes reqId :
  (∀ rn, Make_result Deserialize f jobType jobName jobBytes reqId = (Some rn, None) →
     ∃ j, Factory_Make (jobFactory f) jobType jobName = Ok j ∧
          job rn = (Deserialize jobBytes j).1 ∧
          requestId rn = reqId ∧
          Make_calls Deserialize f jobType jobName jobBytes reqId =
            [CallJobFactoryMake jobType jobName; CallDeserialize jobBytes;
             CallNewJobRunner reqId]) ∧
  (CallRun ∉ Make_calls Deserialize f jobType jobName jobBytes reqId) ∧
  length (List.filter (λ c, match c with CallDeserialize _ => true | _ => false end)
            (Make_calls Deserialize f jobType jobName jobBytes reqId)) ≤ 1.
Proof.
  destruct (Make_cases f jobType jobName jobBytes reqId);
    rewrite Hres, Hcalls; (split; [| split]); simpl; try lia;
    try (intros Hin; repeat (apply elem_of_cons in Hin as [? | Hin]; [done |]);
         by apply elem_of_nil in Hin).
  - intros rn [=].
  - intros rn [=].
  - intros rn [= <-]. exists j. eauto.
Qed.

(** C9. When the job-type lookup fails, [Make] returns that error having
    called nothing but the job factory, so never the restoration; with any
    error the runner returned is nil, and with a nil error it is not. *)
Theorem Make_atomic_on_error f jobType jobName jobBytes reqId :
  (∀ e, Factory_Make (jobFactory f) jobType jobName = Err e →
     Make_result Deserialize f jobType jobName jobBytes reqId = (None, Some e) ∧
     Make_calls Deserialize f jobType jobName jobBytes reqId =
       [CallJobFactoryMake jobType jobName] ∧
     ∀ b, CallDeserialize b ∉
       Make_calls Deserialize f jobType jobName jobBytes reqId) ∧
  (∀ rn e, Make_result Deserialize f jobType jobName jobBytes reqId = (rn, Some e) →
     rn = None) ∧
  (∀ rn, Make_result Deserialize f jobType jobName jobBytes reqId = (rn, None) →
     is_Some rn).
Proof.
  destruct (Make_cases f jobType jobName jobBytes reqId);
    rewrite Hres, Hcalls, Hmake; (split; [| split]).
  - intros e' [= <-]. split; [done |]. split; [done |].
    intros b Hin. apply elem_of_cons in Hin as [? | Hin]; [done |].
    by apply elem_of_nil in Hin.
  - by intros rn e' [= <- _].
  - intros rn [=].
  - intros e' [=].
  - by intros rn e' [= <- _].
  - intros rn [=].
  - intros e' [=].
  - intros rn e' [=].
  - intros rn [= <-]. eauto.
Qed.

End factory_properties.

(** * Properties of the chain validation *)

Section validation_properties.
Import proto chain.
Variable jc : JobChain.

Lemma edgeb_edge u v : edgeb jc u v = true ↔ edge jc u v.
Proof.
  unfold edgeb, edge. rewrite orb_true_iff. split.
  - intros [H | H]; [left | right].
    + destruct (Jobs jc !! u) as [j|]; [| done].
      exists j. split; [done |]. by apply bool_decide_eq_true in H.
    + destruct (Jobs jc !! v) as [j|]; [| done].
      exists j. split; [done |]. by apply bool_decide_eq_true in H.
  - intros [(j & -> & H) | (j & -> & H)]; [left | right];
      by apply bool_decide_eq_true.
Qed.

Lemma dangling_not_resolved :
  has_dangling_reference jc → references_resolve jc = false.
Proof.
  intros (u & j & v & Hu & Hv & Hnone).
  apply not_true_is_false. intros Hall.
  unfold references_resolve in Hall.
  rewrite forallb_forall in Hall.
  assert (In (u, j) (map_to_list (Jobs jc))) as Hin.
  { apply list_elem_of_In. by apply elem_of_map_to_list. }
  specialize (Hall (u, j) Hin). simpl in Hall.
  rewrite forallb_forall in Hall.
  specialize (Hall v). rewrite <- list_elem_of_In in Hall.
  specialize (Hall Hv). apply bool_decide_eq_true in Hall.
  rewrite Hnone in Hall. by destruct Hall.
Qed.

Lemma resolved_no_dangling :
  references_resolve jc = true → ¬ has_dangling_reference jc.
Proof.
  intros H Hd. apply dangling_not_resolved in Hd. congruence.
Qed.

(** A job on a cycle has a predecessor on a cycle. *)
Lemma tc_last {A} (R : relation A) x z :
  tc R x z → ∃ y, rtc R x y ∧ R y z.
Proof.
  induction 1 as [x z H | x y z H _ (y' & Hy & Hz)].
  - exists x. split; [apply rtc_refl | done].
  - exists y'. split; [by eapply rtc_l | done].
Qed.

Lemma cycle_predecessor x :
  tc (edge jc) x x → ∃ u, edge jc u x ∧ tc (edge jc) u u.
Proof.
  intros H. destruct (tc_last _ _ _ H) as (u & Hxu & Hux).
  exists u. split; [done |].
  eapply tc_rtc_r; [by apply tc_once | done].
Qed.

(** When every reference resolves, a job on a cycle is a node. *)
Lemma cycle_is_node x :
  ¬ has_dangling_reference jc → tc (edge jc) x x → x ∈ node_ids jc.
Proof.
  intros Hnd H. destruct (cycle_predecessor x H) as (u & Hux & _).
  assert (is_Some (Jobs jc !! x)) as [jx Hjx].
  { destruct Hux as [(j & Hu & Hin) | (j & Hx & _)]; [| by eexists].
    destruct (Jobs jc !! x) as [jx|] eqn:Hx; [by eexists |].
    destruct Hnd. exists u, j, x. split; [done |]. split; [| done].
    apply elem_of_app. by right. }
  unfold node_ids. apply list_elem_of_fmap. exists (x, jx).
  split; [done |]. by apply elem_of_map_to_list.
Qed.

(** The jobs on a cycle never finish. *)
Lemma cycle_unfinished fuel remaining :
  (∀ x, tc (edge jc) x x → x ∈ remaining) →
  ∀ x, tc (edge jc) x x → x ∈ unfinished jc fuel remaining.
Proof.
  revert remaining. induction fuel as [| fuel IH]; intros remaining Hrem x Hx.
  - by apply Hrem.
  - simpl. apply IH; [| done]. intros y Hy.
    apply list_elem_of_In, filter_In. split.
    + apply list_elem_of_In. by apply Hrem.
    + destruct (cycle_predecessor y Hy) as (u & Huy & Hu).
      apply existsb_exists. exists u. split.
      * apply list_elem_of_In. by apply Hrem.
      * by apply edgeb_edge.
Qed.

Lemma cycle_not_acyclic :
  ¬ has_dangling_reference jc → has_cycle jc → acyclic jc = false.
Proof.
  intros Hnd [v Hv]. unfold acyclic. apply bool_decide_eq_false. intros Hnil.
  assert (v ∈ unfinished jc (length (node_ids jc)) (node_ids jc)) as Hin.
  { apply cycle_unfinished; [| done]. intros x Hx. by apply cycle_is_node. }
  rewrite Hnil in Hin. by apply elem_of_nil in Hin.
Qed.

(** A malformed chain does not pass the validation. *)
Lemma malformed_rejected : malformed jc → is_Some (Validate (NewChain jc)).
Proof.
  intros Hm. unfold Validate, NewChain; simpl.
  destruct (bool_decide (is_Some (proto.RequestId jc))) eqn:Hid; simpl; [| by eexists].
  destruct (references_resolve jc) eqn:Href; simpl; [| by eexists].
  destruct (acyclic jc) eqn:Hac; simpl; [| by eexists].
  exfalso. destruct Hm as [Hc | [Hd | Hmiss]].
  - apply cycle_not_acyclic in Hc; [congruence |].
    by apply resolved_no_dangling.
  - by apply resolved_no_dangling in Hd.
  - apply bool_decide_eq_true in Hid. unfold missing_request_id in Hmiss.
    rewrite Hmiss in Hid. by destruct Hid.
Qed.

(** ** A well-formed chain passes *)

Lemma edge_between_nodes u v :
  ¬ has_dangling_reference jc → edge jc u v →
  u ∈ node_ids jc ∧ v ∈ node_ids jc.
Proof.
  intros Hnd Huv.
  assert (∀ x, is_Some (Jobs jc !! x) → x ∈ node_ids jc) as Hnode.
  { intros x [jx Hjx]. unfold node_ids. apply list_elem_of_fmap.
    exists (x, jx). split; [done |]. by apply elem_of_map_to_list. }
  assert (∀ x j y, Jobs jc !! x = Some j → y ∈ Predecessors j ++ Successors j →
                   is_Some (Jobs jc !! y)) as Hres.
  { intros x j y Hx Hy. destruct (Jobs jc !! y) as [jy |] eqn:Hjy; [by eexists |].
    destruct Hnd. by exists x, j, y. }
  destruct Huv as [(j & Hu & Hin) | (j & Hv & Hin)]; split; apply Hnode;
    try (by eexists).
  - apply (Hres u j v Hu). apply elem_of_app. by right.
  - apply (Hres v j u Hv). apply elem_of_app. by left.
Qed.

Lemma tc_flip {A} (R : relation A) x y : tc (flip R) x y → tc R y x.
Proof.
  induction 1 as [x y H | x y z H _ IH].
  - by apply tc_once.
  - by eapply tc_r.
Qed.

(** Without cycles and dangling references, going back along the edges
    stops. *)
Lemma predecessors_well_founded x :
  ¬ has_cycle jc → ¬ has_dangling_reference jc → sn (flip (edge jc)) x.
Proof.
  intros Hnc Hnd. apply tc_finite_sn.
  - intros y Hy. apply Hnc. exists y. by apply tc_flip.
  - exists (node_ids jc). intros y Hy.
    destruct (tc_last _ _ _ Hy) as (z & _ & Hzy).
    by destruct (edge_between_nodes _ _ Hnd Hzy).
Qed.

Lemma some_node_is_ready remaining :
  ¬ has_cycle jc → ¬ has_dangling_reference jc → remaining ≠ [] →
  length (List.filter (λ v, existsb (λ u, edgeb jc u v) remaining) remaining)
    < length remaining.
Proof.
  intros Hnc Hnd Hne.
  pose proof (filter_length_le (λ v, existsb (λ u, edgeb jc u v) remaining)
                remaining) as Hle.
  destruct (decide (length (List.filter
                      (λ v, existsb (λ u, edgeb jc u v) remaining) remaining)
                    = length remaining)) as [Heq |]; [| lia].
  exfalso. apply filter_length_forallb in Heq.
  rewrite forallb_forall in Heq.
  assert (∀ x, sn (flip (edge jc)) x → x ∉ remaining) as Hout.
  { induction 1 as [x _ IH]. intros Hx.
    apply list_elem_of_In, Heq, existsb_exists in Hx as (u & Hu & Hux).
    apply (IH u); [by apply edgeb_edge | by apply list_elem_of_In]. }
  destruct remaining as [| x rest]; [done |].
  apply (Hout x); [by apply predecessors_well_founded | apply list_elem_of_here].
Qed.

Lemma unfinished_nil fuel : unfinished jc fuel [] = [].
Proof. induction fuel; [done | by simpl]. Qed.

Lemma unfinished_length fuel remaining :
  ¬ has_cycle jc → ¬ has_dangling_reference jc →
  length (unfinished jc fuel remaining) ≤ length remaining - fuel.
Proof.
  intros Hnc Hnd. revert remaining.
  induction fuel as [| fuel IH]; intros remaining; simpl; [lia |].
  destruct remaining as [| x rest] eqn:Hrem; [by rewrite unfinished_nil |].
  rewrite <- Hrem.
  pose proof (some_node_is_ready remaining Hnc Hnd) as Hlt.
  etrans; [apply IH |]. subst remaining.
  specialize (Hlt ltac:(done)). lia.
Qed.

Lemma well_formed_accepted :
  ¬ malformed jc → Validate (NewChain jc) = None.
Proof.
  intros Hwf. unfold Validate, NewChain; simpl.
  assert (¬ has_cycle jc) as Hnc by (intros ?; apply Hwf; by left).
  assert (¬ has_dangling_reference jc) as Hnd
    by (intros ?; apply Hwf; right; by left).
  assert (is_Some (proto.RequestId jc)) as Hid.
  { destruct (proto.RequestId jc) eqn:Hreq; [by eexists |].
    destruct Hwf. right. by right. }
  rewrite bool_decide_eq_true_2 by done. simpl.
  assert (references_resolve jc = true) as ->.
  { unfold references_resolve. apply forallb_forall. intros [u j] Huj.
    apply list_elem_of_In, elem_of_map_to_list in Huj.
    apply forallb_forall. intros v Hv. apply list_elem_of_In in Hv.
    apply bool_decide_eq_true.
    destruct (Jobs jc !! v) as [jv |] eqn:Hjv; [by eexists |].
    destruct Hnd. by exists u, j, v. }
  simpl.
  assert (acyclic jc = true) as ->; [| done].
  unfold acyclic. apply bool_decide_eq_true.
  pose proof (unfinished_length (length (node_ids jc)) (node_ids jc) Hnc Hnd).
  apply length_zero_iff_nil. lia.
Qed.

(** The validation accepts exactly the chains that are not malformed. *)
Lemma Validate_exact : Validate (NewChain jc) = None ↔ ¬ malformed jc.
Proof.
  split; [| apply well_formed_accepted].
  intros Hok Hbad. apply malformed_rejected in Hbad as [err Herr]. congruence.
Qed.

End validation_properties.

(** * Properties of the controllers *)

Lemma string_app_assoc (a b c : string) : (a +:+ b) +:+ c = a +:+ b +:+ c.
Proof.
  induction a as [| x a IH]; [done |].
  change (String x ((a +:+ b) +:+ c) = String x (a +:+ b +:+ c)).
  by f_equal.
Qed.

Section controller_properties.
Import router api.
Context {Repo RunnerFactory T JobChainStatus : Type}.
Variable json_Decode : string → result proto.JobChain.
Variable json_MarshalIndent : JobChainStatus → result string.
Variable os_Hostname : unit → string * option error.
Variable NewTraverser : Repo → RunnerFactory → chain.chain → result T.
Variable Run_enter : T → T.
Variable Run_return : T → T.
Variable Stop : T → T * option error.
Variable Status : T → result JobChainStatus.

Local Abbreviation World := (World Repo RunnerFactory T).
Local Abbreviation step :=
  (step json_Decode json_MarshalIndent os_Hostname NewTraverser
     Run_enter Run_return Stop Status).

Implicit Types (w : World) (ctx : HTTPContext) (id : string).

(** ** The registry *)

Lemma Get_absent id (r : chain.TraverserRepo) :
  r !! id = None → chain.Get id r = Err "traverser not found".
Proof. intros H. unfold chain.Get. by rewrite H. Qed.

Lemma Get_present id (r : chain.TraverserRepo) t :
  r !! id = Some t → chain.Get id r = Ok t.
Proof. intros H. unfold chain.Get. by rewrite H. Qed.

Lemma Add_occupied id (r : chain.TraverserRepo) t t' :
  r !! id = Some t → chain.Add id t' r = (r, Some "traverser already exists").
Proof. intros H. unfold chain.Add. by rewrite H. Qed.

Lemma Add_keeps id id' (r : chain.TraverserRepo) t t' :
  r !! id = Some t → (chain.Add id' t' r).1 !! id = Some t.
Proof.
  intros H. unfold chain.Add. destruct (r !! id') eqn:H'; simpl; [done |].
  rewrite lookup_insert_ne; [done |]. congruence.
Qed.

Lemma Remove_other id id' (r : chain.TraverserRepo) t :
  r !! id = Some t → chain.Remove id' r !! id ≠ Some t → id' = id.
Proof.
  unfold chain.Remove. intros Hin Hout.
  destruct (decide (id' = id)) as [-> | Hne]; [done |].
  by rewrite lookup_delete_ne in Hout.
Qed.

(** ** Absent traversers *)

(** C1, as the controller has it. A stop request for a request id with no
    traverser in the registry changes nothing, so no traverser is stopped
    and the registry stays as it is, and it is answered with a not-found
    error. *)
Theorem stop_absent_not_found ctx w id :
  Method (Request_ ctx) = "PUT" →
  Arguments ctx !! 1 = Some id →
  registry w !! id = None →
  stopJobChainHandler Stop ctx w =
    Some (w, [APIError ErrNotFound
                "Can't retrieve traverser from repo (error: traverser not found)."]).
Proof.
  intros Hm Harg Habs. unfold stopJobChainHandler.
  rewrite decide_True by done. rewrite Harg; simpl.
  by rewrite (Get_absent _ _ Habs).
Qed.

(** C6. A status query for a request id with no traverser in the registry
    is answered with a not-found error and nothing else happens: the
    process is as before and the error is the only action on the
    context. *)
Theorem status_absent_not_found ctx w id :
  Method (Request_ ctx) = "GET" →
  Arguments ctx !! 1 = Some id →
  registry w !! id = None →
  statusJobChainHandler json_MarshalIndent Status ctx w =
    Some (w, [APIError ErrNotFound
                "Can't retrieve traverser from repo (error: traverser not found)."]).
Proof.
  intros Hm Harg Habs. unfold statusJobChainHandler.
  rewrite decide_True by done. rewrite Harg; simpl.
  by rewrite (Get_absent _ _ Habs).
Qed.

(** ** Duplicate requests *)

(** C5. A POST of a chain whose request id is already a key of the
    registry: the registry refuses any [Add] under that key, the
    controller answers with a bad-request error and nothing else, the
    registry is as before and the traverser it holds for the key is
    untouched; when the new traverser could be built, the error is the one
    of [Add]. *)
Theorem duplicate_request_rejected ctx w jc t :
  Method (Request_ ctx) = "POST" →
  json_Decode (Body (Request_ ctx)) = Ok jc →
  registry w !! requestIdStr_of jc = Some t →
  (∀ t', chain.Add (requestIdStr_of jc) t' (registry w) =
           (registry w, Some "traverser already exists")) ∧
  ∃ w' message,
    newJobChainHandler json_Decode NewTraverser ctx w =
      Some (w', [APIError ErrBadRequest message]) ∧
    registry w' = registry w ∧
    registry w' !! requestIdStr_of jc = Some t ∧
    (∀ tv, traversers w !! t = Some tv → traversers w' !! t = Some tv) ∧
    (∀ new, NewTraverser (chainRepo (api_ w)) (runnerFactory (api_ w))
              (chain.NewChain jc) = Ok new →
            message = "traverser already exists").
Proof.
  intros Hm Hdec Hocc. split; [intros t'; by eapply Add_occupied |].
  unfold newJobChainHandler. rewrite decide_True by done. rewrite Hdec.
  fold (requestIdStr_of jc).
  destruct (NewTraverser _ _ _) as [new | err] eqn:Hnew.
  - change (registry (with_traversers (traversers w ++ [new]) w))
      with (registry w).
    rewrite (Add_occupied _ _ _ _ Hocc).
    eexists _, _. split; [done |]. split; [done |]. split; [done |].
    split; [| done]. intros tv Htv. simpl. by apply lookup_app_l_Some.
  - eexists _, _. split; [done |]. split; [done |]. split; [done |].
    split; [done |]. intros new [=].
Qed.

(** ** Starting a chain *)

(** [chainLocation] by the pieces it glues together. *)
Lemma chainLocation_eq (hostname : unit → string * option error) id :
  chainLocation id hostname =
    (hostname ()).1 +:+ "/api/v1/" +:+ "job-chains/" +:+ id.
Proof.
  unfold chainLocation, API_ROOT. destruct (hostname ()) as [h e].
  cbn [fst]. by rewrite !string_app_assoc.
Qed.

Lemma start_present ctx w id t :
  Method (Request_ ctx) = "PUT" →
  Arguments ctx !! 1 = Some id →
  registry w !! id = Some t →
  startJobChainHandler os_Hostname ctx w =
    Some (spawn {| g_traverser := t; g_requestIdStr := id; g_point := Spawned |} w,
          [HeaderSet "Location" (chainLocation id os_Hostname)]).
Proof.
  intros Hm Harg Hin. unfold startJobChainHandler.
  rewrite decide_True by done. rewrite Harg; simpl.
  by rewrite (Get_present _ _ _ Hin).
Qed.

(** C10. [chainLocation] always returns a value: what the hostname
    function gave as the name, then "/api/v1/", "job-chains/" and the
    request id.  The error of the hostname function is not looked at, so
    with a failed lookup and an empty name the location has no host part;
    and the start controller sets the value as the Location header and
    reports nothing, whatever the hostname function returned. *)
Theorem chainLocation_ignores_failure
    (hostname : unit → string * option error) id :
  chainLocation id hostname =
    (hostname ()).1 +:+ "/api/v1/" +:+ "job-chains/" +:+ id ∧
  (∀ e, hostname () = ("", Some e) →
        chainLocation id hostname = "/api/v1/job-chains/" +:+ id) ∧
  (∀ ctx (w : World) t,
     Method (Request_ ctx) = "PUT" →
     Arguments ctx !! 1 = Some id →
     registry w !! id = Some t →
     snd <$> startJobChainHandler hostname ctx w =
       Some [HeaderSet "Location" (chainLocation id hostname)]).
Proof.
  split; [apply chainLocation_eq |]. split.
  - intros e He. rewrite chainLocation_eq, He. done.
  - intros ctx w t Hm Harg Hin. unfold startJobChainHandler.
    rewrite decide_True by done. rewrite Harg; simpl.
    by rewrite (Get_present _ _ _ Hin).
Qed.

(** The start controller and the moves of the goroutine it starts.  For a
    request id the registry has, the controller returns once it has set
    the Location header and started a goroutine: at that point the
    goroutine has not moved, the traversers and the registry are as
    before, so [Run] has not even been entered.  The goroutine enters
    [Run], and while it has not returned from it the goroutine leaves the
    registry alone; the move it makes once [Run] has returned is the
    removal of the request id from the registry, and it is its last. *)
Lemma start_goroutine_moves ctx w id t :
  Method (Request_ ctx) = "PUT" →
  Arguments ctx !! 1 = Some id →
  registry w !! id = Some t →
  let g := {| g_traverser := t; g_requestIdStr := id; g_point := Spawned |} in
  (∃ w', startJobChainHandler os_Hostname ctx w =
           Some (w', [HeaderSet "Location" (chainLocation id os_Hostname)]) ∧
         goroutines w' = goroutines w ++ [g] ∧
         traversers w' = traversers w ∧
         registry w' = registry w) ∧
  ∀ (v : World) i tv p,
    goroutines v !! i =
      Some {| g_traverser := t; g_requestIdStr := id; g_point := p |} →
    traversers v !! t = Some tv →
    match p with
    | Spawned =>
        ∃ v', go_step Run_enter Run_return i v = Some v' ∧
              registry v' = registry v ∧
              traversers v' = <[t := Run_enter tv]> (traversers v) ∧
              g_point <$> goroutines v' !! i = Some InRun
    | InRun =>
        ∃ v', go_step Run_enter Run_return i v = Some v' ∧
              registry v' = registry v ∧
              traversers v' = <[t := Run_return tv]> (traversers v) ∧
              g_point <$> goroutines v' !! i = Some RunReturned
    | RunReturned =>
        ∃ v', go_step Run_enter Run_return i v = Some v' ∧
              registry v' = chain.Remove id (registry v) ∧
              registry v' !! id = None ∧
              traversers v' = traversers v ∧
              g_point <$> goroutines v' !! i = Some Finished
    | Finished => go_step Run_enter Run_return i v = None
    end.
Proof.
  intros Hm Harg Hin g. split.
  - eexists. split; [by apply start_present |]. done.
  - intros v i tv p Hg Htv. unfold go_step. rewrite Hg; simpl.
    assert (i < length (goroutines v)) as Hi by (by eapply lookup_lt_Some).
    destruct p; simpl; try rewrite Htv; simpl; [ | | | done];
      eexists; (split; [done |]); simpl;
      rewrite ?list_lookup_insert_eq by done; simpl; try done.
    split; [done |]. split; [| done]. apply lookup_delete_eq.
Qed.

(** ** Who removes a traverser from the registry *)

Lemma new_keeps_registered ctx w w' out id t :
  newJobChainHandler json_Decode NewTraverser ctx w = Some (w', out) →
  registry w !! id = Some t → registry w' !! id = Some t.
Proof.
  unfold newJobChainHandler. intros H Hin.
  destruct (decide _); [| by simplify_eq].
  destruct (json_Decode _); [| by simplify_eq].
  destruct (NewTraverser _ _ _) as [new |]; [| by simplify_eq].
  match type of H with context [chain.Add ?k ?a ?r] =>
    pose proof (Add_keeps id k r t a) as Hkeep;
    destruct (chain.Add k a r) as [r' [err |]] end;
    simplify_eq; [done |]. by apply Hkeep.
Qed.

Lemma start_keeps_registry ctx w w' out :
  startJobChainHandler os_Hostname ctx w = Some (w', out) →
  registry w' = registry w.
Proof.
  unfold startJobChainHandler. intros H.
  destruct (decide _); [| by simplify_eq].
  destruct (Arguments ctx !! 1); simpl in H; [| done].
  destruct (chain.Get _ _); by simplify_eq.
Qed.

Lemma status_changes_nothing ctx w w' out :
  statusJobChainHandler json_MarshalIndent Status ctx w = Some (w', out) →
  w' = w.
Proof.
  unfold statusJobChainHandler. intros H.
  destruct (decide _); [| by simplify_eq].
  destruct (Arguments ctx !! 1); simpl in H; [| done].
  destruct (chain.Get _ _); [| by simplify_eq].
  destruct (traversers w !! _); simpl in H; [| done].
  destruct (Status _); [| by simplify_eq].
  destruct (marshal _); by simplify_eq.
Qed.

(** C8, as the controllers have it. A traverser registered under a
    request id is no longer registered under it after a move of the
    process only when that move is a stop request for the id whose [Stop]
    returned no error, the traverser being the one stopped and not waited
    for, or the move of a goroutine started for that id whose [Run] has
    returned.  Creating a chain, starting it and asking for its status
    remove nothing. *)
Theorem removed_by_stop_or_returned_run (a : Action) w w' out id t :
  step a w = Some (w', out) →
  registry w !! id = Some t →
  registry w' !! id ≠ Some t →
  (∃ ctx tv, a = Serve stopJobChain ctx ∧
             Method (Request_ ctx) = "PUT" ∧
             Arguments ctx !! 1 = Some id ∧
             traversers w !! t = Some tv ∧
             (Stop tv).2 = None ∧
             traversers w' !! t = Some (Stop tv).1 ∧
             registry w' !! id = None) ∨
  (∃ i g, a = Move i ∧
          goroutines w !! i = Some g ∧
          g_requestIdStr g = id ∧
          g_point g = RunReturned ∧
          registry w' !! id = None).
Proof.
  intros Hstep Hin Hout. destruct a as [[] ctx | i]; simpl in Hstep.
  - by apply (new_keeps_registered _ _ _ _ id t) in Hstep.
  - apply start_keeps_registry in Hstep. congruence.
  - left. unfold stopJobChainHandler in Hstep.
    destruct (decide _) as [Hm |]; [| by simplify_eq].
    destruct (Arguments ctx !! 1) as [id' |] eqn:Harg; simpl in Hstep; [| done].
    unfold chain.Get in Hstep.
    destruct (registry w !! id') as [t' |] eqn:Hid'; [| by simplify_eq].
    destruct (traversers w !! t') as [tv |] eqn:Htv; simpl in Hstep; [| done].
    destruct (Stop tv) as [tv' [err |]] eqn:Hstop; simplify_eq; try done.
    change (chain.Remove id' (registry w) !! id ≠ Some t) in Hout.
    pose proof (Remove_other _ _ _ _ Hin Hout) as ->.
    assert (t' = t) as -> by congruence.
    exists ctx, tv. rewrite Hstop. repeat split; try done.
    + simpl. apply list_lookup_insert_eq. by eapply lookup_lt_Some.
    + apply lookup_delete_eq.
  - apply status_changes_nothing in Hstep. congruence.
  - right. unfold go_step in Hstep.
    destruct (goroutines w !! i) as [g |] eqn:Hg; simpl in Hstep; [| done].
    exists i, g. split; [done |]. split; [done |].
    destruct (g_point g) eqn:Hp; simpl in Hstep.
    + destruct (traversers w !! _); simpl in Hstep; [| done]. by simplify_eq.
    + destruct (traversers w !! _); simpl in Hstep; [| done]. by simplify_eq.
    + simplify_eq.
      change (chain.Remove (g_requestIdStr g) (registry w) !! id ≠ Some t) in Hout.
      pose proof (Remove_other _ _ _ _ Hin Hout) as Heq.
      split; [done |]. split; [done |]. rewrite <- Heq. apply lookup_delete_eq.
    + done.
Qed.

End controller_properties.

(** * Malformed chains *)

Section chain_construction.
Import router api.
Context {Repo RunnerFactory : Type}.
Variable json_Decode : string → result proto.JobChain.

(** C4. A POST of a malformed chain (one with a cycle, with a reference
    to a job that is not in the chain, or without a request id): the
    validation gives an error, so building the traverser for the chain
    fails with it, and the controller answers with a bad-request error and
    leaves the process as it was; no traverser exists for the chain and the
    registry has no new entry. *)
Theorem malformed_chain_rejected ctx
    (w : World Repo RunnerFactory chain.traverser) jc :
  Method (Request_ ctx) = "POST" →
  json_Decode (Body (Request_ ctx)) = Ok jc →
  chain.malformed jc →
  ∃ err,
    chain.Validate (chain.NewChain jc) = Some err ∧
    chain.NewTraverser (chainRepo (api_ w)) (runnerFactory (api_ w))
      (chain.NewChain jc) = Err err ∧
    newJobChainHandler json_Decode chain.NewTraverser ctx w =
      Some (w, [APIError ErrBadRequest
                  (Sprintf1 "Problem creating traverser (error: " ")" err)]).
Proof.
  intros Hm Hdec Hbad.
  destruct (malformed_rejected jc Hbad) as [err Herr].
  exists err. split; [done |].
  assert (chain.NewTraverser (chainRepo (api_ w)) (runnerFactory (api_ w))
            (chain.NewChain jc) = Err err) as Hnew.
  { unfold chain.NewTraverser. by rewrite Herr. }
  split; [done |].
  unfold newJobChainHandler. rewrite decide_True by done.
  by rewrite Hdec, Hnew.
Qed.

End chain_construction.

(** * The properties on the small runner process *)

Section on_the_demo.
Import router api demo.

(** C2 on three calls: an unknown type, an empty blob, a good one. *)
Example Make_unknown_type :
  runner.Make_result demo.Deserialize factory "nope" "list" ls 7 =
    (None, Some "unknown job type: nope").
Proof. reflexivity. Qed.

Example Make_empty_state :
  runner.Make_result demo.Deserialize factory "shell-command" "list" [] 7 =
    (None, Some "deserialization: empty state").
Proof. reflexivity. Qed.

Example Make_good :
  runner.Make_result demo.Deserialize factory "shell-command" "list" ls 7 =
    (Some {| runner.job := {| sj_name := "list"; sj_command := ls |};
             runner.requestId := 7 |}, None).
Proof. reflexivity. Qed.

(** The validation accepts the diamond. *)
Example diamond_is_valid : chain.Validate (chain.NewChain diamond) = None.
Proof. vm_compute. reflexivity. Qed.

(** C3 on the good call. *)
Lemma Make_success_runner_witness :
  runner.Make_calls demo.Deserialize factory "shell-command" "list" ls 7 =
    [runner.CallJobFactoryMake "shell-command" "list";
     runner.CallDeserialize ls; runner.CallNewJobRunner 7].
Proof.
  destruct (proj1 (Make_success_runner demo.Deserialize factory
                     "shell-command" "list" ls 7) _ eq_refl)
    as (j & _ & _ & _ & Hcalls).
  exact Hcalls.
Defined.

(** C9 on the call with an unknown type. *)
Lemma Make_atomic_on_error_witness :
  runner.Make_result demo.Deserialize factory "nope" "list" ls 7 =
    (None, Some "unknown job type: nope") ∧
  runner.Make_calls demo.Deserialize factory "nope" "list" ls 7 =
    [runner.CallJobFactoryMake "nope" "list"].
Proof.
  destruct (proj1 (Make_atomic_on_error demo.Deserialize factory
                     "nope" "list" ls 7) _ eq_refl)
    as (Hres & Hcalls & _).
  exact (conj Hres Hcalls).
Defined.

(** C1 as stated fails: a stop request for "7" at start-up, when the
    registry is empty, is answered with an error. *)
Lemma stop_absent_is_an_error :
  ¬ (∀ ctx (w : demo.World) id,
       Method (Request_ ctx) = "PUT" →
       Arguments ctx !! 1 = Some id →
       registry w !! id = None →
       ∃ w' out, demo.stopJobChainHandler ctx w = Some (w', out) ∧
                 ¬ reports_error out).
Proof.
  intros H.
  destruct (H (put "stop" "7") start_up "7" eq_refl eq_refl eq_refl)
    as (w' & out & Hrun & Hsilent).
  vm_compute in Hrun. injection Hrun as _ <-.
  apply Hsilent. eexists _, _. apply list_elem_of_here.
Qed.

(** C1, as the controller has it, on that request. *)
Lemma stop_absent_not_found_witness :
  demo.stopJobChainHandler (put "stop" "7") start_up =
    Some (start_up,
          [APIError ErrNotFound
             "Can't retrieve traverser from repo (error: traverser not found)."]).
Proof.
  exact (stop_absent_not_found chain.Stop (put "stop" "7") start_up "7"
           eq_refl eq_refl eq_refl).
Defined.

(** C6 on a status query for "7" at start-up. *)
Lemma status_absent_not_found_witness :
  demo.statusJobChainHandler (get "status" "7") start_up =
    Some (start_up,
          [APIError ErrNotFound
             "Can't retrieve traverser from repo (error: traverser not found)."]).
Proof.
  exact (status_absent_not_found demo.json_MarshalIndent chain.Status_
           (get "status" "7") start_up "7" eq_refl eq_refl eq_refl).
Defined.

(** The cyclic chain has a cycle through "A". *)
Lemma cyclic_has_cycle : chain.has_cycle cyclic.
Proof.
  exists "A".
  assert (∀ u v j, proto.Jobs cyclic !! u = Some j → v ∈ proto.Successors j →
                   chain.edge cyclic u v) as Hedge.
  { intros u v j Hu Hv. left. by exists j. }
  eapply tc_l; [| eapply tc_l; [| apply tc_once]].
  - apply (Hedge "A" "B" (node "A" ["C"] ["B"])); [reflexivity |].
    apply list_elem_of_here.
  - apply (Hedge "B" "C" (node "B" ["A"] ["C"])); [reflexivity |].
    apply list_elem_of_here.
  - apply (Hedge "C" "A" (node "C" ["B"] ["A"])); [reflexivity |].
    apply list_elem_of_here.
Defined.

(** C4 on a POST of the cyclic chain at start-up. *)
Lemma malformed_chain_rejected_witness :
  ∃ err,
    chain.Validate (chain.NewChain cyclic) = Some err ∧
    chain.NewTraverser () () (chain.NewChain cyclic) = Err err ∧
    demo.newJobChainHandler (post "cyclic") start_up =
      Some (start_up,
            [APIError ErrBadRequest
               (Sprintf1 "Problem creating traverser (error: " ")" err)]).
Proof.
  exact (malformed_chain_rejected demo.json_Decode (post "cyclic") start_up
           cyclic eq_refl eq_refl (or_introl cyclic_has_cycle)).
Defined.

(** C5 on a second POST of the diamond. *)
Lemma duplicate_request_rejected_witness :
  (∀ t', chain.Add (requestIdStr_of diamond) t' (registry registered) =
           (registry registered, Some "traverser already exists")) ∧
  ∃ (w' : demo.World) message,
    demo.newJobChainHandler (post "diamond") registered =
      Some (w', [APIError ErrBadRequest message]) ∧
    registry w' = registry registered ∧
    registry w' !! requestIdStr_of diamond = Some 0 ∧
    (∀ tv, traversers registered !! 0 = Some tv → traversers w' !! 0 = Some tv) ∧
    (∀ new, chain.NewTraverser () () (chain.NewChain diamond) = Ok new →
            message = "traverser already exists").
Proof.
  exact (duplicate_request_rejected demo.json_Decode chain.NewTraverser
           (post "diamond") registered diamond 0 eq_refl eq_refl eq_refl).
Defined.

(** The diamond is registered and started, its goroutine is inside [Run]
    and the traversal is under way; a stop request then takes the
    traverser out of the registry although [Run] has not returned and the
    traverser is in no terminal state. *)
Example stop_while_running :
  ∃ (w' : demo.World) tv,
    registry running !! "7" = Some 0 ∧
    demo.step (Serve stopJobChain (put "stop" "7")) running = Some (w', []) ∧
    registry w' !! "7" = None ∧
    traversers w' !! 0 = Some tv ∧
    chain.t_state tv = chain.Traversing ∧
    chain.terminal tv = false ∧
    g_point <$> goroutines w' !! 0 = Some InRun.
Proof.
  eexists _, _. split; [reflexivity |]. split; [vm_compute; reflexivity |].
  split; [reflexivity |]. split; [reflexivity |]. done.
Qed.

(** C8 as stated fails: it is not so that whenever a move of the process
    takes a traverser out of the registry, that traverser is in a terminal
    state.  The stop request above is such a move. *)
Lemma stop_removes_running_traverser :
  ¬ (∀ (a : Action) (w w' : demo.World) out id t,
       demo.step a w = Some (w', out) →
       registry w !! id = Some t →
       registry w' !! id = None →
       ∃ tv, traversers w' !! t = Some tv ∧ chain.terminal tv = true).
Proof.
  intros H.
  destruct stop_while_running as (w' & tv & Hin & Hstep & Hout & Htv & _ & Hnt & _).
  destruct (H _ _ _ _ _ _ Hstep Hin Hout) as (tv' & Htv' & Hterm).
  congruence.
Qed.

(** C8, as the controllers have it, on that stop request. *)
Lemma removed_by_stop_or_returned_run_witness :
  (∃ ctx tv, Serve stopJobChain (put "stop" "7") = Serve stopJobChain ctx ∧
             Method (Request_ ctx) = "PUT" ∧
             Arguments ctx !! 1 = Some "7" ∧
             traversers running !! 0 = Some tv ∧
             (chain.Stop tv).2 = None ∧
             traversers stopped !! 0 = Some (chain.Stop tv).1 ∧
             registry stopped !! "7" = None) ∨
  (∃ i g, Serve stopJobChain (put "stop" "7") = Move i ∧
          goroutines running !! i = Some g ∧
          g_requestIdStr g = "7" ∧
          g_point g = RunReturned ∧
          registry stopped !! "7" = None).
Proof.
  apply (removed_by_stop_or_returned_run demo.json_Decode demo.json_MarshalIndent
           demo.os_Hostname chain.NewTraverser chain.Run_enter
           (chain.Run_return jobs_succeed) chain.Stop chain.Status_
           (Serve stopJobChain (put "stop" "7")) running stopped [] "7" 0).
  - reflexivity.
  - reflexivity.
  - vm_compute. discriminate.
Defined.

(** C10 with a hostname lookup that fails. *)
Lemma chainLocation_ignores_failure_witness :
  chainLocation "7" no_Hostname = "/api/v1/job-chains/7" ∧
  snd <$> api.startJobChainHandler no_Hostname (put "start" "7") registered =
    Some [HeaderSet "Location" "/api/v1/job-chains/7"].
Proof.
  destruct (chainLocation_ignores_failure (Repo := unit) (RunnerFactory := unit)
              (T := chain.traverser) no_Hostname "7") as (_ & Hempty & Hstart).
  split.
  - exact (Hempty "hostname: not set" eq_refl).
  - exact (Hstart (put "start" "7") registered 0 eq_refl eq_refl eq_refl).
Defined.

End on_the_demo.

(** * More on the controllers *)

Section controllers_in_full.
Import router api.
Context {Repo RunnerFactory T JobChainStatus : Type}.
Variable json_Decode : string → result proto.JobChain.
Variable json_MarshalIndent : JobChainStatus → result string.
Variable os_Hostname : unit → string * option error.
Variable NewTraverser : Repo → RunnerFactory → chain.chain → result T.
Variable Run_enter : T → T.
Variable Run_return : T → T.
Variable Stop : T → T * option error.
Variable Status : T → result JobChainStatus.

Local Abbreviation World := (World Repo RunnerFactory T).
Local Abbreviation step :=
  (step json_Decode json_MarshalIndent os_Hostname NewTraverser
     Run_enter Run_return Stop Status).
Local Abbreviation run :=
  (run json_Decode json_MarshalIndent os_Hostname NewTraverser
     Run_enter Run_return Stop Status).
Local Abbreviation not_found :=
  (APIError ErrNotFound
     "Can't retrieve traverser from repo (error: traverser not found).").

Implicit Types (w : World) (ctx : HTTPContext) (id : string) (c : Controller).

(** ** The successful paths of the controllers *)

Lemma new_registers ctx w jc new :
  Method (Request_ ctx) = "POST" →
  json_Decode (Body (Request_ ctx)) = Ok jc →
  NewTraverser (chainRepo (api_ w)) (runnerFactory (api_ w))
    (chain.NewChain jc) = Ok new →
  registry w !! requestIdStr_of jc = None →
  newJobChainHandler json_Decode NewTraverser ctx w =
    Some (with_traverserRepo
            (<[requestIdStr_of jc := length (traversers w)]> (registry w))
            (with_traversers (traversers w ++ [new]) w), []).
Proof.
  intros Hm Hdec Hnew Hfree. unfold newJobChainHandler.
  rewrite decide_True by done. rewrite Hdec, Hnew.
  fold (requestIdStr_of jc).
  change (registry (with_traversers (traversers w ++ [new]) w))
    with (registry w).
  unfold chain.Add. by rewrite Hfree.
Qed.

Lemma stop_unregisters ctx w id t tv :
  Method (Request_ ctx) = "PUT" →
  Arguments ctx !! 1 = Some id →
  registry w !! id = Some t →
  traversers w !! t = Some tv →
  (Stop tv).2 = None →
  stopJobChainHandler Stop ctx w =
    Some (with_traverserRepo (chain.Remove id (registry w))
            (with_traversers (<[t := (Stop tv).1]> (traversers w)) w), []).
Proof.
  intros Hm Harg Hin Htv Hok. unfold stopJobChainHandler.
  rewrite decide_True by done. rewrite Harg; simpl.
  unfold chain.Get. rewrite Hin, Htv; simpl.
  destruct (Stop tv) as [tv' err]; simpl in *. by subst err.
Qed.

(** ** Requests with another method *)

(** A controller that is sent a request with any method but its own
    (POST to create, PUT to start and to stop, GET for the status) refuses
    it as unsupported and does nothing else: the body is not decoded, the
    registry is not consulted and no traverser is touched. *)
Theorem other_method_unsupported c ctx w :
  Method (Request_ ctx) ≠ verb c →
  step (Serve c ctx) w = Some (w, [UnsupportedAPIMethod]).
Proof.
  intros Hm. destruct c; simpl in *.
  - unfold newJobChainHandler. by rewrite decide_False.
  - unfold startJobChainHandler. by rewrite decide_False.
  - unfold stopJobChainHandler. by rewrite decide_False.
  - unfold statusJobChainHandler. by rewrite decide_False.
Qed.

(** ** Creating a chain *)

(** The new-job-chain controller never fails at run time, whatever the
    request.  It answers nothing at all exactly when the request is a POST
    whose body decodes, whose traverser can be built and whose request id
    is not yet a key of the registry; then the new traverser is the next
    cell and the registry has it under the request id.  In every other
    case it answers with exactly one action, and the registry and the
    goroutines are as before. *)
Theorem new_chain_outcome ctx w :
  ∃ w' out,
    newJobChainHandler json_Decode NewTraverser ctx w = Some (w', out) ∧
    goroutines w' = goroutines w ∧
    ((out = [] ∧
      ∃ jc new,
        Method (Request_ ctx) = "POST" ∧
        json_Decode (Body (Request_ ctx)) = Ok jc ∧
        NewTraverser (chainRepo (api_ w)) (runnerFactory (api_ w))
          (chain.NewChain jc) = Ok new ∧
        registry w !! requestIdStr_of jc = None ∧
        traversers w' = traversers w ++ [new] ∧
        registry w' =
          <[requestIdStr_of jc := length (traversers w)]> (registry w))
     ∨
     ((∃ reply, out = [reply]) ∧
      registry w' = registry w ∧
      ¬ (∃ jc new,
           Method (Request_ ctx) = "POST" ∧
           json_Decode (Body (Request_ ctx)) = Ok jc ∧
           NewTraverser (chainRepo (api_ w)) (runnerFactory (api_ w))
             (chain.NewChain jc) = Ok new ∧
           registry w !! requestIdStr_of jc = None))).
Proof.
  destruct (decide (Method (Request_ ctx) = "POST")) as [Hm | Hm].
  - destruct (json_Decode (Body (Request_ ctx))) as [jc | e] eqn:Hdec.
    + destruct (NewTraverser (chainRepo (api_ w)) (runnerFactory (api_ w))
                  (chain.NewChain jc)) as [new | e] eqn:Hnew.
      * destruct (registry w !! requestIdStr_of jc) as [t |] eqn:Hkey.
        -- unfold newJobChainHandler. rewrite decide_True by done.
           rewrite Hdec, Hnew. fold (requestIdStr_of jc).
           change (registry (with_traversers (traversers w ++ [new]) w))
             with (registry w).
           unfold chain.Add. rewrite Hkey.
           eexists _, _. split; [done |]. split; [done |]. right.
           split; [by eexists |]. split; [done |].
           intros (jc' & new' & _ & Hdec' & _ & Hfree). congruence.
        -- rewrite (new_registers ctx w jc new) by done.
           eexists _, _. split; [done |]. split; [done |]. left.
           split; [done |]. by exists jc, new.
      * unfold newJobChainHandler. rewrite decide_True by done.
        rewrite Hdec, Hnew.
        eexists _, _. split; [done |]. split; [done |]. right.
        split; [by eexists |]. split; [done |].
        intros (jc' & new' & _ & Hdec' & Hnew' & _). congruence.
    + unfold newJobChainHandler. rewrite decide_True by done. rewrite Hdec.
      eexists _, _. split; [done |]. split; [done |]. right.
      split; [by eexists |]. split; [done |].
      intros (jc' & new' & _ & Hdec' & _). congruence.
  - unfold newJobChainHandler. rewrite decide_False by done.
    eexists _, _. split; [done |]. split; [done |]. right.
    split; [by eexists |]. split; [done |].
    intros (jc' & new' & Hm' & _). congruence.
Qed.

(** A chain that was created can be started under the decimal form of
    its request id: after a POST that registered the chain, a start
    request whose captured argument is that key sets the Location header
    and starts one goroutine, and the traverser that goroutine will run is
    the one built for the chain. *)
Theorem created_chain_can_be_started ctx ctx' w jc new :
  Method (Request_ ctx) = "POST" →
  json_Decode (Body (Request_ ctx)) = Ok jc →
  NewTraverser (chainRepo (api_ w)) (runnerFactory (api_ w))
    (chain.NewChain jc) = Ok new →
  registry w !! requestIdStr_of jc = None →
  Method (Request_ ctx') = "PUT" →
  Arguments ctx' !! 1 = Some (requestIdStr_of jc) →
  ∃ w1 w' g,
    newJobChainHandler json_Decode NewTraverser ctx w = Some (w1, []) ∧
    startJobChainHandler os_Hostname ctx' w1 =
      Some (w', [HeaderSet "Location"
                   (chainLocation (requestIdStr_of jc) os_Hostname)]) ∧
    goroutines w' = goroutines w ++ [g] ∧
    g_requestIdStr g = requestIdStr_of jc ∧
    g_point g = Spawned ∧
    traversers w' !! g_traverser g = Some new.
Proof.
  intros Hm Hdec Hnew Hfree Hm' Harg.
  pose proof (new_registers ctx w jc new Hm Hdec Hnew Hfree) as Hpost.
  set (w1 := with_traverserRepo
               (<[requestIdStr_of jc := length (traversers w)]> (registry w))
               (with_traversers (traversers w ++ [new]) w)) in *.
  assert (registry w1 !! requestIdStr_of jc = Some (length (traversers w)))
    as Hkey by apply lookup_insert_eq.
  pose proof (start_present os_Hostname ctx' w1 _ _ Hm' Harg Hkey) as Hstart.
  eexists w1, _, _. split; [done |]. split; [done |].
  split; [done |]. split; [done |]. split; [done |].
  simpl. by apply list_lookup_middle.
Qed.

(** ** Stopping a chain *)

(** When the traverser's [Stop] returns an error, the stop controller
    reports an internal error carrying it and does not remove the
    traverser: it stays registered under its request id, so the request
    can be stopped again or queried.  What [Stop] did to the traverser
    stays done, and no other traverser and no goroutine is touched. *)
Theorem failed_stop_keeps_traverser ctx w id t tv e :
  Method (Request_ ctx) = "PUT" →
  Arguments ctx !! 1 = Some id →
  registry w !! id = Some t →
  traversers w !! t = Some tv →
  (Stop tv).2 = Some e →
  ∃ w',
    stopJobChainHandler Stop ctx w =
      Some (w', [APIError ErrInternal
                   (Sprintf1 "Can't stop the chain (error: " ")" e)]) ∧
    registry w' = registry w ∧
    traversers w' = <[t := (Stop tv).1]> (traversers w) ∧
    goroutines w' = goroutines w.
Proof.
  intros Hm Harg Hin Htv Herr. unfold stopJobChainHandler.
  rewrite decide_True by done. rewrite Harg; simpl.
  unfold chain.Get. rewrite Hin, Htv; simpl.
  destruct (Stop tv) as [tv' err]; simpl in *. subst err.
  by eexists.
Qed.

(** ** Asking for the status *)

(** The status controller is read-only: whenever it returns, the process
    is exactly as before, with the same registry, traversers and
    goroutines, and it has acted on the context exactly once.  That one
    action is a line of the response precisely when the request is a GET
    for a registered request id whose traverser reports its status and
    whose status can be encoded, and the line is the encoding. *)
Theorem status_is_read_only ctx w w' out :
  statusJobChainHandler json_MarshalIndent Status ctx w = Some (w', out) →
  w' = w ∧
  (∃ reply, out = [reply]) ∧
  ∀ line,
    out = [Fprintln line] ↔
    ∃ id t tv statuses,
      Method (Request_ ctx) = "GET" ∧
      Arguments ctx !! 1 = Some id ∧
      registry w !! id = Some t ∧
      traversers w !! t = Some tv ∧
      Status tv = Ok statuses ∧
      json_MarshalIndent statuses = Ok line.
Proof.
  unfold statusJobChainHandler, chain.Get, marshal. intros H.
  destruct (decide _) as [Hm | Hm].
  2:{ simplify_eq. split; [done |]. split; [by eexists |].
      intros line. split; [done |]. intros (? & ? & ? & ? & ? & _). done. }
  destruct (Arguments ctx !! 1) as [id |] eqn:Harg; simpl in H; [| done].
  destruct (registry w !! id) as [t |] eqn:Hin.
  2:{ simplify_eq. split; [done |]. split; [by eexists |].
      intros line. split; [done |].
      intros (? & ? & ? & ? & _ & ? & ? & _). congruence. }
  destruct (traversers w !! t) as [tv |] eqn:Htv; simpl in H; [| done].
  destruct (Status tv) as [statuses | e] eqn:Hst.
  2:{ simplify_eq. split; [done |]. split; [by eexists |].
      intros line. split; [done |].
      intros (? & ? & ? & ? & _ & ? & ? & ? & ? & _). congruence. }
  destruct (json_MarshalIndent statuses) as [line' | e] eqn:Hms.
  2:{ simplify_eq. split; [done |]. split; [by eexists |].
      intros line. split; [done |].
      intros (? & ? & ? & ? & _ & ? & ? & ? & ? & ?). congruence. }
  simplify_eq. split; [done |]. split; [by eexists |].
  intros line. split.
  - intros [= <-]. by exists id, t, tv, statuses.
  - intros (? & ? & ? & ? & _ & ? & ? & ? & ? & ?). congruence.
Qed.

(** ** What a move can change *)

Lemma absent_not_found c ctx w id :
  c ≠ newJobChain →
  Method (Request_ ctx) = verb c →
  Arguments ctx !! 1 = Some id →
  registry w !! id = None →
  step (Serve c ctx) w = Some (w, [not_found]).
Proof.
  intros Hc Hm Harg Habs. destruct c; [done | | |]; simpl in *.
  - unfold startJobChainHandler, chain.Get.
    rewrite decide_True by done. rewrite Harg; simpl. by rewrite Habs.
  - unfold stopJobChainHandler, chain.Get.
    rewrite decide_True by done. rewrite Harg; simpl. by rewrite Habs.
  - unfold statusJobChainHandler, chain.Get.
    rewrite decide_True by done. rewrite Harg; simpl. by rewrite Habs.
Qed.

Lemma new_shape ctx w w' out :
  newJobChainHandler json_Decode NewTraverser ctx w = Some (w', out) →
  goroutines w' = goroutines w ∧
  ((traversers w' = traversers w ∧ registry w' = registry w) ∨
   (∃ new, traversers w' = traversers w ++ [new] ∧
           (registry w' = registry w ∨
            ∃ k, registry w' = <[k := length (traversers w)]> (registry w)))).
Proof.
  unfold newJobChainHandler. intros H.
  destruct (decide _); [| simplify_eq; auto].
  destruct (json_Decode _); [| simplify_eq; auto].
  destruct (NewTraverser _ _ _) as [new |]; [| simplify_eq; auto].
  unfold chain.Add in H.
  change (registry (with_traversers (traversers w ++ [new]) w))
    with (registry w) in H.
  destruct (registry w !! _); simplify_eq; (split; [done |]); right;
    exists new; (split; [done |]); [by left | right; by eexists].
Qed.

Lemma start_shape ctx w w' out :
  startJobChainHandler os_Hostname ctx w = Some (w', out) →
  traversers w' = traversers w ∧ registry w' = registry w ∧
  (goroutines w' = goroutines w ∨
   ∃ id t, registry w !! id = Some t ∧
           goroutines w' = goroutines w ++
             [{| g_traverser := t; g_requestIdStr := id; g_point := Spawned |}]).
Proof.
  unfold startJobChainHandler, chain.Get. intros H.
  destruct (decide _); [| simplify_eq; auto].
  destruct (Arguments ctx !! 1) as [id |]; simpl in H; [| done].
  destruct (registry w !! id) as [t |] eqn:Hin; simplify_eq; [| auto].
  split; [done |]. split; [done |]. right. by exists id, t.
Qed.

Lemma stop_shape ctx w w' out :
  stopJobChainHandler Stop ctx w = Some (w', out) →
  goroutines w' = goroutines w ∧
  ((traversers w' = traversers w ∧ registry w' = registry w) ∨
   ∃ id t tv, registry w !! id = Some t ∧ traversers w !! t = Some tv ∧
              traversers w' = <[t := (Stop tv).1]> (traversers w) ∧
              (registry w' = registry w ∨
               registry w' = chain.Remove id (registry w))).
Proof.
  unfold stopJobChainHandler, chain.Get. intros H.
  destruct (decide _); [| simplify_eq; auto].
  destruct (Arguments ctx !! 1) as [id |]; simpl in H; [| done].
  destruct (registry w !! id) as [t |] eqn:Hin; [| simplify_eq; auto].
  destruct (traversers w !! t) as [tv |] eqn:Htv; simpl in H; [| done].
  destruct (Stop tv) as [tv' [err |]] eqn:Hstop; simplify_eq;
    (split; [done |]); right; exists id, t, tv; rewrite Hstop; auto.
Qed.

Lemma go_shape i w w' :
  go_step Run_enter Run_return i w = Some w' →
  ∃ g p, goroutines w !! i = Some g ∧
         progress p = S (progress (g_point g)) ∧
         goroutines w' =
           <[i := {| g_traverser := g_traverser g;
                     g_requestIdStr := g_requestIdStr g;
                     g_point := p |}]> (goroutines w) ∧
         length (traversers w') = length (traversers w) ∧
         (registry w' = registry w ∨
          registry w' = chain.Remove (g_requestIdStr g) (registry w)).
Proof.
  unfold go_step. intros H.
  destruct (goroutines w !! i) as [g |] eqn:Hg; simpl in H; [| done].
  destruct (g_point g) eqn:Hp; simpl in H; [| | | done].
  - destruct (traversers w !! _); simpl in H; [| done]. simplify_eq.
    exists g, InRun. rewrite Hp; simpl. rewrite length_insert. auto 10.
  - destruct (traversers w !! _); simpl in H; [| done]. simplify_eq.
    exists g, RunReturned. rewrite Hp; simpl. rewrite length_insert. auto 10.
  - simplify_eq. exists g, Finished. rewrite Hp; simpl. auto 10.
Qed.

(** ** Goroutines *)



(** ** Dangling pointers and run-time failures *)

Lemma step_well_formed a w w' out :
  step a w = Some (w', out) → well_formed w → well_formed w'.
Proof.
  intros Hstep [Hreg Hgo]. unfold well_formed.
  destruct a as [[] ctx | j]; simpl in Hstep.
  - apply new_shape in Hstep as [Hg Hrest]. split.
    + intros id t.
      destruct Hrest as [[-> ->] | (new & -> & [-> | [k ->]])];
        rewrite ?length_app; simpl; intros Hin.
      * by apply Hreg in Hin.
      * apply Hreg in Hin. lia.
      * destruct (decide (k = id)) as [-> | Hne].
        -- rewrite lookup_insert_eq in Hin. simplify_eq. lia.
        -- rewrite lookup_insert_ne in Hin by done. apply Hreg in Hin. lia.
    + rewrite Hg. intros i g Hi. apply Hgo in Hi.
      destruct Hrest as [[-> _] | (new & -> & _)];
        rewrite ?length_app; simpl; lia.
  - apply start_shape in Hstep as (-> & -> & Hg). split; [done |].
    destruct Hg as [-> | (id & t & Hin & ->)]; [done |].
    intros i g Hi. apply lookup_app_Some in Hi as [Hi | [_ Hi]].
    + by apply Hgo in Hi.
    + apply list_lookup_singleton_Some in Hi as [_ <-]. simpl.
      by apply Hreg in Hin.
  - apply stop_shape in Hstep as [Hg Hrest]. split.
    + intros id t.
      destruct Hrest as [[-> ->] | (k & tk & tv & _ & _ & -> & [-> | ->])];
        rewrite ?length_insert; [apply Hreg | apply Hreg |].
      unfold chain.Remove. intros Hin.
      apply lookup_delete_Some in Hin as [_ Hin]. by apply Hreg in Hin.
    + rewrite Hg. intros i g Hi. apply Hgo in Hi.
      destruct Hrest as [[-> _] | (k & tk & tv & _ & _ & -> & _)];
        by rewrite ?length_insert.
  - by apply status_changes_nothing in Hstep as ->.
  - destruct (go_step Run_enter Run_return j w) as [v |] eqn:Hgs;
      simpl in Hstep; [| done]. simplify_eq.
    apply go_shape in Hgs as (gj & p & Hgj & _ & Hg & Hlen & Hr). split.
    + intros id t Hin. rewrite Hlen. destruct Hr as [Hr | Hr]; rewrite Hr in Hin.
      * by apply Hreg in Hin.
      * unfold chain.Remove in Hin.
        apply lookup_delete_Some in Hin as [_ Hin]. by apply Hreg in Hin.
    + rewrite Hg, Hlen. intros i g Hi.
      apply list_lookup_insert_Some in Hi as [(-> & <- & _) | [_ Hi]]; simpl.
      * by apply Hgo in Hgj.
      * by apply Hgo in Hi.
Qed.

(** Well-formedness along a run, so that it holds of every process
    reached from a fresh API. *)
Lemma run_well_formed (moves : list Action) w w' :
  well_formed w →
  run moves w = Some w' →
  well_formed w' ∧ length (traversers w) ≤ length (traversers w').
Proof.
  revert w. induction moves as [| a moves IH]; intros w Hwf Hrun.
  - simpl in Hrun. by simplify_eq.
  - simpl in Hrun.
    destruct (step a w) as [[w1 out] |] eqn:Hstep; simpl in Hrun; [| done].
    destruct (IH w1 (step_well_formed _ _ _ _ Hstep Hwf) Hrun) as [Hwf' Hle].
    split; [done |]. etrans; [| exact Hle].
    destruct a as [[] ctx | j]; simpl in Hstep.
    + apply new_shape in Hstep as [_ [[-> _] | (new & -> & _)]];
        rewrite ?length_app; lia.
    + by apply start_shape in Hstep as (-> & _).
    + apply stop_shape in Hstep as [_ [[-> _] | (? & ? & ? & _ & _ & -> & _)]];
        by rewrite ?length_insert.
    + by apply status_changes_nothing in Hstep as ->.
    + destruct (go_step Run_enter Run_return j w) as [v |] eqn:Hgs;
        simpl in Hstep; [| done]. simplify_eq.
      apply go_shape in Hgs as (? & ? & _ & _ & _ & -> & _). done.
Qed.

(** With no dangling pointer, a controller fails at run time in one case
    only: a start, stop or status request with the controller's own method
    whose context has no second argument.  The new-job-chain controller,
    which reads no argument, never fails. *)
Theorem controller_fails_only_without_argument c ctx w :
  well_formed w →
  (step (Serve c ctx) w = None ↔
   c ≠ newJobChain ∧ Method (Request_ ctx) = verb c ∧ Arguments ctx !! 1 = None).
Proof.
  intros [Hreg _]. split.
  - intros Hfail. destruct c; simpl in *.
    + unfold newJobChainHandler in Hfail.
      destruct (decide _); [| done]. destruct (json_Decode _); [| done].
      destruct (NewTraverser _ _ _); [| done].
      by destruct (chain.Add _ _ _) as [? []].
    + unfold startJobChainHandler, chain.Get in Hfail.
      destruct (decide _); [| done].
      destruct (Arguments ctx !! 1) as [id |]; simpl in Hfail; [| done].
      by destruct (registry w !! id).
    + unfold stopJobChainHandler, chain.Get in Hfail.
      destruct (decide _); [| done].
      destruct (Arguments ctx !! 1) as [id |]; simpl in Hfail; [| done].
      destruct (registry w !! id) as [t |] eqn:Hin; [| done].
      apply Hreg, lookup_lt_is_Some in Hin as [tv Htv].
      rewrite Htv in Hfail; simpl in Hfail. by destruct (Stop tv) as [? []].
    + unfold statusJobChainHandler, chain.Get in Hfail.
      destruct (decide _); [| done].
      destruct (Arguments ctx !! 1) as [id |]; simpl in Hfail; [| done].
      destruct (registry w !! id) as [t |] eqn:Hin; [| done].
      apply Hreg, lookup_lt_is_Some in Hin as [tv Htv].
      rewrite Htv in Hfail; simpl in Hfail.
      destruct (Status tv); [| done]. by destruct (marshal _ _).
  - intros (Hc & Hm & Harg). destruct c; [done | | |]; simpl in *.
    + unfold startJobChainHandler. rewrite decide_True by done. by rewrite Harg.
    + unfold stopJobChainHandler. rewrite decide_True by done. by rewrite Harg.
    + unfold statusJobChainHandler. rewrite decide_True by done. by rewrite Harg.
Qed.

(** ** After a stop *)

(** A stop request that succeeds makes the request id unknown at once:
    the traverser keeps what [Stop] did to it, the goroutines are left as
    they are (one may still be inside [Run]), and from then on a status
    query, a second stop and a start for that id are all answered with a
    not-found error and change nothing. *)
Theorem stopped_chain_is_unknown ctx w id t tv :
  Method (Request_ ctx) = "PUT" →
  Arguments ctx !! 1 = Some id →
  registry w !! id = Some t →
  traversers w !! t = Some tv →
  (Stop tv).2 = None →
  ∃ w',
    stopJobChainHandler Stop ctx w = Some (w', []) ∧
    registry w' !! id = None ∧
    traversers w' = <[t := (Stop tv).1]> (traversers w) ∧
    goroutines w' = goroutines w ∧
    ∀ c ctx',
      c ≠ newJobChain →
      Method (Request_ ctx') = verb c →
      Arguments ctx' !! 1 = Some id →
      step (Serve c ctx') w' = Some (w', [not_found]).
Proof.
  intros Hm Harg Hin Htv Hok.
  rewrite (stop_unregisters ctx w id t tv) by done.
  eexists. split; [done |].
  assert (∀ r : chain.TraverserRepo, chain.Remove id r !! id = None) as Hgone
    by (intros r; apply lookup_delete_eq).
  split; [apply Hgone |]. split; [done |]. split; [done |].
  intros c ctx' Hc Hm' Harg'. apply (absent_not_found c ctx' _ id); try done.
  apply Hgone.
Qed.

(** ** A fresh API *)

Lemma fresh_well_formed routes cr rf :
  well_formed (fresh routes cr rf : World).
Proof.
  split.
  - intros id t H.
    change ((∅ : chain.TraverserRepo) !! id = Some t) in H.
    by rewrite lookup_empty in H.
  - intros i g H. change (@nil Goroutine !! i = Some g) in H.
    by rewrite lookup_nil in H.
Qed.

(** Right after [NewAPI] no request id is known, whatever routes the
    router already had: every start, stop and status request with a
    request id is answered with a not-found error and changes nothing; and
    a POST of a chain whose body decodes and whose traverser can be built
    is never refused as a duplicate. *)
Theorem fresh_api_knows_no_request routes cr rf :
  (∀ c ctx id,
     c ≠ newJobChain →
     Method (Request_ ctx) = verb c →
     Arguments ctx !! 1 = Some id →
     step (Serve c ctx) (fresh routes cr rf) =
       Some (fresh routes cr rf, [not_found])) ∧
  (∀ ctx jc new,
     Method (Request_ ctx) = "POST" →
     json_Decode (Body (Request_ ctx)) = Ok jc →
     NewTraverser cr rf (chain.NewChain jc) = Ok new →
     ∃ w', step (Serve newJobChain ctx) (fresh routes cr rf) = Some (w', []) ∧
           registry w' !! requestIdStr_of jc = Some 0 ∧
           traversers w' = [new]).
Proof.
  split.
  - intros c ctx id Hc Hm Harg. by apply (absent_not_found c ctx _ id).
  - intros ctx jc new Hm Hdec Hnew. simpl.
    rewrite (new_registers ctx (fresh routes cr rf) jc new) by done.
    eexists. split; [done |]. split; [| done]. apply lookup_insert_eq.
Qed.

(** ** Request ids and registry keys *)

Lemma requestIdStr_of_inj jc1 jc2 a b :
  proto.RequestId jc1 = Some a → proto.RequestId jc2 = Some b →
  (a < 2 ^ 64)%N → (b < 2 ^ 64)%N →
  requestIdStr_of jc1 = requestIdStr_of jc2 → a = b.
Proof.
  unfold requestIdStr_of, FormatUint10, uint64, chain.RequestId, chain.NewChain.
  simpl. intros -> -> Ha Hb Heq. simpl in Heq.
  apply (inj pretty) in Heq. by rewrite !N.mod_small in Heq.
Qed.

(** Chains with different request ids never get in each other's way: the
    keys of two request ids below 2^64 are equal only if the ids are, so
    when two such chains are posted one after the other and neither id was
    known, both are registered, each with its own traverser. *)
Theorem distinct_ids_both_register ctx1 ctx2 w jc1 jc2 new1 new2 a b :
  Method (Request_ ctx1) = "POST" →
  Method (Request_ ctx2) = "POST" →
  json_Decode (Body (Request_ ctx1)) = Ok jc1 →
  json_Decode (Body (Request_ ctx2)) = Ok jc2 →
  proto.RequestId jc1 = Some a →
  proto.RequestId jc2 = Some b →
  (a < 2 ^ 64)%N → (b < 2 ^ 64)%N → a ≠ b →
  NewTraverser (chainRepo (api_ w)) (runnerFactory (api_ w))
    (chain.NewChain jc1) = Ok new1 →
  NewTraverser (chainRepo (api_ w)) (runnerFactory (api_ w))
    (chain.NewChain jc2) = Ok new2 →
  registry w !! requestIdStr_of jc1 = None →
  registry w !! requestIdStr_of jc2 = None →
  requestIdStr_of jc1 ≠ requestIdStr_of jc2 ∧
  ∃ w',
    run [Serve newJobChain ctx1; Serve newJobChain ctx2] w = Some w' ∧
    registry w' !! requestIdStr_of jc1 = Some (length (traversers w)) ∧
    registry w' !! requestIdStr_of jc2 = Some (S (length (traversers w))) ∧
    traversers w' = traversers w ++ [new1; new2].
Proof.
  intros Hm1 Hm2 Hd1 Hd2 Ha Hb Hla Hlb Hne Hn1 Hn2 Hf1 Hf2.
  assert (requestIdStr_of jc1 ≠ requestIdStr_of jc2) as Hkeys.
  { intros Heq. apply Hne. by eapply requestIdStr_of_inj. }
  split; [done |]. simpl.
  rewrite (new_registers ctx1 w jc1 new1) by done. simpl.
  rewrite (new_registers ctx2 _ jc2 new2); try done.
  - simpl. eexists. split; [done |].
    cbv [registry with_traverserRepo with_traversers]; simpl.
    rewrite length_app, Nat.add_1_r. split.
    + rewrite lookup_insert_ne by done. apply lookup_insert_eq.
    + split; [apply lookup_insert_eq |]. by rewrite <- app_assoc.
  - cbv [registry with_traverserRepo with_traversers]; simpl.
    rewrite lookup_insert_ne by done. exact Hf2.
Qed.

(** ** A request id that is used again *)

Lemma go_enters i w g tv :
  goroutines w !! i = Some g → g_point g = Spawned →
  traversers w !! g_traverser g = Some tv →
  go_step Run_enter Run_return i w =
    Some (set_point i g InRun
            (with_traversers (<[g_traverser g := Run_enter tv]> (traversers w)) w)).
Proof. intros Hg Hp Htv. unfold go_step. by rewrite Hg; simpl; rewrite Hp, Htv. Qed.

Lemma go_returns i w g tv :
  goroutines w !! i = Some g → g_point g = InRun →
  traversers w !! g_traverser g = Some tv →
  go_step Run_enter Run_return i w =
    Some (set_point i g RunReturned
            (with_traversers (<[g_traverser g := Run_return tv]> (traversers w)) w)).
Proof. intros Hg Hp Htv. unfold go_step. by rewrite Hg; simpl; rewrite Hp, Htv. Qed.

Lemma go_removes i w g :
  goroutines w !! i = Some g → g_point g = RunReturned →
  go_step Run_enter Run_return i w =
    Some (set_point i g Finished
            (with_traverserRepo (chain.Remove (g_requestIdStr g) (registry w)) w)).
Proof. intros Hg Hp. unfold go_step. by rewrite Hg; simpl; rewrite Hp. Qed.

(** The goroutine of a start request removes its request id by name,
    whatever is registered under it by then.  So when a chain is started,
    stopped while its [Run] is still going, and a new chain with the same
    request id is then created, the return of the old [Run] takes the new
    chain out of the registry: its traverser is in place and untouched, no
    goroutine runs it, and it is no longer known. *)
Theorem stale_goroutine_unregisters_new_chain
    ctx_start ctx_stop ctx_post w id t tv jc new :
  well_formed w →
  registry w !! id = Some t →
  traversers w !! t = Some tv →
  Method (Request_ ctx_start) = "PUT" →
  Arguments ctx_start !! 1 = Some id →
  Method (Request_ ctx_stop) = "PUT" →
  Arguments ctx_stop !! 1 = Some id →
  (Stop (Run_enter tv)).2 = None →
  Method (Request_ ctx_post) = "POST" →
  json_Decode (Body (Request_ ctx_post)) = Ok jc →
  requestIdStr_of jc = id →
  NewTraverser (chainRepo (api_ w)) (runnerFactory (api_ w))
    (chain.NewChain jc) = Ok new →
  let n := length (goroutines w) in
  let m := length (traversers w) in
  ∃ w1 w2,
    run [Serve startJobChain ctx_start; Move n;
         Serve stopJobChain ctx_stop; Serve newJobChain ctx_post] w = Some w1 ∧
    registry w1 !! id = Some m ∧
    traversers w1 !! m = Some new ∧
    run [Move n; Move n] w1 = Some w2 ∧
    registry w2 !! id = None ∧
    traversers w2 !! m = Some new ∧
    ∀ i g, goroutines w2 !! i = Some g → g_traverser g ≠ m.
Proof.
  intros [Hreg Hgo] Hin Htv Hm1 Ha1 Hm2 Ha2 Hstop Hm3 Hdec Hkey Hnew n m.
  assert (t < m) as Htm by (unfold m; eapply lookup_lt_Some; exact Htv).
  set (g := {| g_traverser := t; g_requestIdStr := id; g_point := Spawned |}).
  (* the start request *)
  pose proof (start_present os_Hostname ctx_start w id t Hm1 Ha1 Hin) as H1.
  fold g in H1. set (wa := spawn g w) in *.
  (* the goroutine enters Run *)
  assert (goroutines wa !! n = Some g) as Hga by apply list_lookup_middle, eq_refl.
  pose proof (go_enters n wa g tv Hga eq_refl Htv) as H2.
  set (wb := set_point n g InRun _) in H2.
  (* the stop request *)
  assert (traversers wb !! t = Some (Run_enter tv)) as Htb.
  { apply list_lookup_insert_eq. exact Htm. }
  pose proof (stop_unregisters ctx_stop wb id t _ Hm2 Ha2 Hin Htb Hstop) as H3.
  set (wc := with_traverserRepo _ _) in H3.
  (* the new chain *)
  assert (registry wc !! requestIdStr_of jc = None) as Hfree.
  { rewrite Hkey. apply lookup_delete_eq. }
  pose proof (new_registers ctx_post wc jc new Hm3 Hdec Hnew Hfree) as H4.
  set (w1 := with_traverserRepo _ _) in H4.
  assert (length (traversers wc) = m) as Hlen.
  { unfold wc, wb. cbv [with_traverserRepo with_traversers set_point
                         with_goroutines traversers].
    by rewrite !length_insert. }
  (* the old Run returns, and the goroutine removes the id *)
  set (gb := {| g_traverser := t; g_requestIdStr := id; g_point := InRun |}).
  assert (goroutines w1 !! n = Some gb) as Hg1.
  { cbv [w1 wc wb with_traverserRepo with_traversers set_point
           with_goroutines goroutines].
    apply list_lookup_insert_eq. unfold wa, spawn; simpl.
    rewrite length_app; simpl. lia. }
  assert (traversers w1 = traversers wc ++ [new]) as Htr1 by reflexivity.
  assert (is_Some (traversers w1 !! t)) as [tv1 Htv1].
  { apply lookup_lt_is_Some. rewrite Htr1, length_app, Hlen. lia. }
  pose proof (go_returns n w1 gb tv1 Hg1 eq_refl Htv1) as H5.
  set (wd := set_point n gb RunReturned _) in H5.
  set (gd := {| g_traverser := t; g_requestIdStr := id; g_point := RunReturned |}).
  assert (goroutines wd !! n = Some gd) as Hgd.
  { unfold wd, set_point; simpl. apply list_lookup_insert_eq.
    by eapply lookup_lt_Some. }
  pose proof (go_removes n wd gd Hgd eq_refl) as H6.
  set (w2 := set_point n gd Finished _) in H6.
  exists w1, w2. simpl.
  rewrite H1; simpl. rewrite H2; simpl. rewrite H3; simpl. rewrite H4; simpl.
  split; [done |]. split.
  { unfold w1; cbv [registry with_traverserRepo]; simpl.
    rewrite <- Hkey, <- Hlen. apply lookup_insert_eq. }
  assert (traversers w1 !! m = Some new) as Hnew1.
  { rewrite Htr1, <- Hlen. by apply list_lookup_middle. }
  split; [done |].
  rewrite H5; simpl. rewrite H6; simpl.
  split; [done |]. split.
  { unfold w2; cbv [registry with_traverserRepo set_point with_goroutines];
      simpl. apply lookup_delete_eq. }
  split.
  { unfold w2, wd; simpl. rewrite list_lookup_insert_ne by lia. exact Hnew1. }
  intros i gi Hi. unfold w2, wd in Hi; simpl in Hi.
  assert (∀ (l : list Goroutine) p, (∀ j x, l !! j = Some x → g_traverser x < m) →
            ∀ j x, <[n := {| g_traverser := t; g_requestIdStr := id;
                             g_point := p |}]> l !! j = Some x →
                   g_traverser x < m) as Hins.
  { intros l p Hl j x Hx.
    apply list_lookup_insert_Some in Hx as [(-> & <- & _) | [_ Hx]]; [done |].
    by eapply Hl. }
  assert (g_traverser gi < m); [| lia].
  revert i gi Hi. apply Hins, Hins.
  unfold w1, wc, wb; simpl. apply Hins.
  unfold wa, spawn; simpl. intros j x Hx.
  apply lookup_app_Some in Hx as [Hx | [_ Hx]].
  - by apply Hgo in Hx.
  - apply list_lookup_singleton_Some in Hx as [_ <-]. done.
Qed.

(** ** Starting, and who removes the traverser *)

(** C7, as the controllers have it. The start controller, for a request
    id the registry has, returns once it has set the Location header and
    started a goroutine: the goroutine has not moved yet and the traversers
    and the registry are as before, so the request does not wait for
    [Run].  That goroutine enters [Run] and leaves the registry alone until
    [Run] has returned; its next move is then to remove the request id
    from the registry, whatever the id holds by then, and it is its last.
    The traverser can leave the registry before: a stop request for the id
    whose [Stop] returns no error removes it at once and leaves the
    goroutines as they are, so also while [Run] is going. *)
Theorem start_removes_after_run_unless_stopped ctx w id t :
  Method (Request_ ctx) = "PUT" →
  Arguments ctx !! 1 = Some id →
  registry w !! id = Some t →
  (∃ w', startJobChainHandler os_Hostname ctx w =
           Some (w', [HeaderSet "Location" (chainLocation id os_Hostname)]) ∧
         goroutines w' =
           goroutines w ++
             [{| g_traverser := t; g_requestIdStr := id; g_point := Spawned |}] ∧
         traversers w' = traversers w ∧
         registry w' = registry w) ∧
  (∀ (v : World) i tv p,
     goroutines v !! i =
       Some {| g_traverser := t; g_requestIdStr := id; g_point := p |} →
     traversers v !! t = Some tv →
     match p with
     | Spawned =>
         ∃ v', go_step Run_enter Run_return i v = Some v' ∧
               registry v' = registry v ∧
               traversers v' = <[t := Run_enter tv]> (traversers v) ∧
               g_point <$> goroutines v' !! i = Some InRun
     | InRun =>
         ∃ v', go_step Run_enter Run_return i v = Some v' ∧
               registry v' = registry v ∧
               traversers v' = <[t := Run_return tv]> (traversers v) ∧
               g_point <$> goroutines v' !! i = Some RunReturned
     | RunReturned =>
         ∃ v', go_step Run_enter Run_return i v = Some v' ∧
               registry v' = chain.Remove id (registry v) ∧
               registry v' !! id = None ∧
               traversers v' = traversers v ∧
               g_point <$> goroutines v' !! i = Some Finished
     | Finished => go_step Run_enter Run_return i v = None
     end) ∧
  (∀ (v : World) ctx' tv,
     Method (Request_ ctx') = "PUT" →
     Arguments ctx' !! 1 = Some id →
     registry v !! id = Some t →
     traversers v !! t = Some tv →
     (Stop tv).2 = None →
     ∃ v', stopJobChainHandler Stop ctx' v = Some (v', []) ∧
           registry v' !! id = None ∧
           traversers v' = <[t := (Stop tv).1]> (traversers v) ∧
           goroutines v' = goroutines v).
Proof.
  intros Hm Harg Hin.
  destruct (start_goroutine_moves os_Hostname Run_enter Run_return
              ctx w id t Hm Harg Hin) as [Hstart Hmoves].
  split; [exact Hstart |]. split; [exact Hmoves |].
  intros v ctx' tv Hm' Harg' Hin' Htv Hok.
  rewrite (stop_unregisters ctx' v id t tv) by done.
  eexists. split; [done |]. split; [| done]. apply lookup_delete_eq.
Qed.

(** ** Starting twice *)

(** The start controller does not look whether the chain was started
    before: two start requests for one registered request id start two
    goroutines on the same traverser, and once both have moved, [Run] has
    been entered twice on it.  The registry is as before. *)
Theorem start_twice_runs_twice ctx1 ctx2 w id t tv :
  registry w !! id = Some t →
  traversers w !! t = Some tv →
  Method (Request_ ctx1) = "PUT" →
  Arguments ctx1 !! 1 = Some id →
  Method (Request_ ctx2) = "PUT" →
  Arguments ctx2 !! 1 = Some id →
  let n := length (goroutines w) in
  let inside :=
    {| g_traverser := t; g_requestIdStr := id; g_point := InRun |} in
  ∃ w',
    run [Serve startJobChain ctx1; Serve startJobChain ctx2;
         Move n; Move (S n)] w = Some w' ∧
    goroutines w' = goroutines w ++ [inside; inside] ∧
    traversers w' = <[t := Run_enter (Run_enter tv)]> (traversers w) ∧
    registry w' = registry w.
Proof.
  intros Hin Htv Hm1 Ha1 Hm2 Ha2 n inside.
  assert (t < length (traversers w)) as Ht by (eapply lookup_lt_Some; exact Htv).
  set (g := {| g_traverser := t; g_requestIdStr := id; g_point := Spawned |}).
  pose proof (start_present os_Hostname ctx1 w id t Hm1 Ha1 Hin) as H1.
  fold g in H1. set (wa := spawn g w) in *.
  pose proof (start_present os_Hostname ctx2 wa id t Hm2 Ha2 Hin) as H2.
  fold g in H2. set (wb := spawn g wa) in *.
  assert (goroutines wb = goroutines w ++ [g; g]) as Hgb.
  { unfold wb, wa, spawn; simpl. by rewrite <- app_assoc. }
  assert (goroutines wb !! n = Some g) as Hg0.
  { rewrite Hgb. by apply list_lookup_middle. }
  pose proof (go_enters n wb g tv Hg0 eq_refl Htv) as H3.
  set (wc := set_point n g InRun _) in H3.
  assert (goroutines wc = goroutines w ++ [inside; g]) as Hgc.
  { change (goroutines wc) with (<[n := inside]> (goroutines wb)).
    rewrite Hgb.
    replace n with (length (goroutines w) + 0) by (unfold n; lia).
    by rewrite insert_app_r. }
  assert (goroutines wc !! S n = Some g) as Hg1.
  { rewrite Hgc. rewrite lookup_app_r by (unfold n; lia).
    replace (S n - length (goroutines w)) with 1 by (unfold n; lia). done. }
  assert (traversers wc !! g_traverser g = Some (Run_enter tv)) as Htc.
  { unfold wc; simpl. by apply list_lookup_insert_eq. }
  pose proof (go_enters (S n) wc g _ Hg1 eq_refl Htc) as H4.
  eexists. simpl. rewrite H1; simpl. rewrite H2; simpl.
  rewrite H3; simpl. rewrite H4; simpl. split; [done |].
  split; [| split; [| done]].
  - change (<[S n := inside]> (goroutines wc) =
            goroutines w ++ [inside; inside]).
    rewrite Hgc.
    replace (S n) with (length (goroutines w) + 1) by (unfold n; lia).
    by rewrite insert_app_r.
  - change (<[t := Run_enter (Run_enter tv)]> (<[t := Run_enter tv]> (traversers w)) =
            <[t := Run_enter (Run_enter tv)]> (traversers w)).
    apply list_insert_insert_eq.
Qed.

End controllers_in_full.

(** * More on the location and on the factory *)

(** The location tells requests apart: for one hostname function, two
    request ids have the same location only if they are the same id, and
    the location always ends with "/api/v1/job-chains/" and the id. *)
Theorem chainLocation_identifies_request
    (hostname : unit → string * option error) (id1 id2 : string) :
  (api.chainLocation id1 hostname = api.chainLocation id2 hostname → id1 = id2) ∧
  ∃ host, api.chainLocation id1 hostname =
            host +:+ "/api/v1/job-chains/" +:+ id1.
Proof.
  rewrite !chainLocation_eq. split.
  - intros H. by repeat apply (inj (String.append _)) in H.
  - by exists (hostname ()).1.
Qed.

Section runner_is_built_last.
Import runner.
Context {Job : Type}.
Variable Deserialize : bytes → Job → Job * option error.

(** [Make] builds the runner last and only when nothing failed: the
    runner's constructor is among its calls exactly when it returns no
    error, and then it is the last call; on the error paths no runner is
    ever built.  Whatever happens, [Make] calls neither [Stop] nor
    [Status] on the job, and every restoration it asks for is from the
    bytes it was given. *)
Theorem Make_builds_runner_iff_success
    (f : runnerFactory Job) (jobType jobName : string) (jobBytes : bytes)
    (reqId : N) :
  let calls := Make_calls Deserialize f jobType jobName jobBytes reqId in
  let res := Make_result Deserialize f jobType jobName jobBytes reqId in
  ((∃ r, CallNewJobRunner r ∈ calls) ↔ res.2 = None) ∧
  (res.2 = None → last calls = Some (CallNewJobRunner reqId)) ∧
  (CallStop ∉ calls) ∧ (CallStatus ∉ calls) ∧
  (∀ b, CallDeserialize b ∈ calls → b = jobBytes) ∧
  head calls = Some (CallJobFactoryMake jobType jobName).
Proof.
  cbv zeta.
  assert (∀ (x : Call) l, x ∈ l → Forall (λ y, x ≠ y) l → False) as Hno.
  { intros x l Hx Hall. rewrite Forall_forall in Hall. by apply (Hall x). }
  destruct (Make_cases Deserialize f jobType jobName jobBytes reqId);
    rewrite Hres, Hcalls; simpl.
  - split; [split; [| done] |].
    { intros [r Hr]. exfalso. apply (Hno _ _ Hr). by repeat constructor. }
    split; [done |].
    split; [intros Hr; apply (Hno _ _ Hr); by repeat constructor |].
    split; [intros Hr; apply (Hno _ _ Hr); by repeat constructor |].
    split; [| done].
    intros b Hr. exfalso. apply (Hno _ _ Hr). by repeat constructor.
  - split; [split; [| done] |].
    { intros [r Hr]. exfalso. apply (Hno _ _ Hr). by repeat constructor. }
    split; [done |].
    split; [intros Hr; apply (Hno _ _ Hr); by repeat constructor |].
    split; [intros Hr; apply (Hno _ _ Hr); by repeat constructor |].
    split; [| done].
    intros b Hr. apply elem_of_cons in Hr as [[=] | Hr].
    apply elem_of_cons in Hr as [[= ->] | Hr]; [done |].
    by apply elem_of_nil in Hr.
  - split; [split; [done |] |].
    { intros _. exists reqId. do 2 apply list_elem_of_further.
      apply list_elem_of_here. }
    split; [done |].
    split; [intros Hr; apply (Hno _ _ Hr); by repeat constructor |].
    split; [intros Hr; apply (Hno _ _ Hr); by repeat constructor |].
    split; [| done].
    intros b Hr. apply elem_of_cons in Hr as [[=] | Hr].
    apply elem_of_cons in Hr as [[= ->] | Hr]; [done |].
    apply elem_of_cons in Hr as [[=] | Hr].
    by apply elem_of_nil in Hr.
Qed.

End runner_is_built_last.

(** * The further properties on the small runner process *)

Section more_on_the_demo.
Import router api demo.

Local Abbreviation on_demo thm :=
  (thm demo.json_Decode demo.json_MarshalIndent demo.os_Hostname
     (@chain.NewTraverser unit unit) chain.Run_enter
     (chain.Run_return jobs_succeed) chain.Stop chain.Status_).

Lemma start_up_well_formed : well_formed start_up.
Proof. apply (fresh_well_formed [] () ()). Qed.

Lemma registered_well_formed : well_formed registered.
Proof.
  apply (on_demo step_well_formed (Serve newJobChain (post "diamond"))
           start_up registered []); [| apply start_up_well_formed].
  vm_compute. reflexivity.
Qed.

(** A GET sent to the new-job-chain controller. *)
Lemma other_method_unsupported_witness :
  demo.step (Serve newJobChain (get "status" "7")) start_up =
    Some (start_up, [UnsupportedAPIMethod]).
Proof.
  apply (on_demo other_method_unsupported newJobChain (get "status" "7") start_up).
  intros H. vm_compute in H. discriminate H.
Defined.

(** The diamond is created at start-up and then started as "7". *)
Lemma created_chain_can_be_started_witness :
  ∃ (w1 w' : demo.World) g,
    demo.newJobChainHandler (post "diamond") start_up = Some (w1, []) ∧
    demo.startJobChainHandler (put "start" "7") w1 =
      Some (w', [HeaderSet "Location"
                   (chainLocation (requestIdStr_of diamond) demo.os_Hostname)]) ∧
    goroutines w' = goroutines start_up ++ [g] ∧
    g_requestIdStr g = requestIdStr_of diamond ∧
    g_point g = Spawned ∧
    traversers w' !! g_traverser g = Some (created diamond).
Proof.
  apply (created_chain_can_be_started demo.json_Decode demo.os_Hostname
           (@chain.NewTraverser unit unit) (post "diamond") (put "start" "7")
           start_up diamond (created diamond)).
  - reflexivity.
  - reflexivity.
  - vm_compute. reflexivity.
  - reflexivity.
  - reflexivity.
  - reflexivity.
Defined.

(** A stop request for the registered diamond whose traverser does not
    stop. *)
Lemma failed_stop_keeps_traverser_witness :
  ∃ w' : demo.World,
    api.stopJobChainHandler stuck_Stop (put "stop" "7") registered =
      Some (w', [APIError ErrInternal
                   (Sprintf1 "Can't stop the chain (error: " ")"
                      "job does not respond")]) ∧
    registry w' = registry registered ∧
    traversers w' = <[0 := (stuck_Stop (created diamond)).1]> (traversers registered) ∧
    goroutines w' = goroutines registered.
Proof.
  apply (failed_stop_keeps_traverser stuck_Stop (put "stop" "7") registered
           "7" 0 (created diamond) "job does not respond").
  - reflexivity.
  - reflexivity.
  - reflexivity.
  - vm_compute. reflexivity.
  - reflexivity.
Defined.

(** A status query for the registered diamond. *)
Lemma status_is_read_only_witness :
  registered = registered ∧
  (∃ reply, [Fprintln "{}"] = [reply]) ∧
  ∀ line,
    [Fprintln "{}"] = [Fprintln line] ↔
    ∃ id t tv statuses,
      Method (Request_ (get "status" "7")) = "GET" ∧
      Arguments (get "status" "7") !! 1 = Some id ∧
      registry registered !! id = Some t ∧
      traversers registered !! t = Some tv ∧
      chain.Status_ tv = Ok statuses ∧
      demo.json_MarshalIndent statuses = Ok line.
Proof.
  apply (status_is_read_only demo.json_MarshalIndent chain.Status_
           (get "status" "7") registered registered [Fprintln "{}"]).
  vm_compute. reflexivity.
Defined.


(** A start request that reached the controller without its argument. *)
Lemma controller_fails_only_without_argument_witness :
  demo.step (Serve startJobChain (bare "PUT")) start_up = None ↔
  startJobChain ≠ newJobChain ∧
  Method (Request_ (bare "PUT")) = verb startJobChain ∧
  Arguments (bare "PUT") !! 1 = None.
Proof.
  apply (on_demo controller_fails_only_without_argument startJobChain
           (bare "PUT") start_up).
  apply start_up_well_formed.
Defined.

(** The running diamond is stopped. *)
Lemma stopped_chain_is_unknown_witness :
  ∃ w' : demo.World,
    demo.stopJobChainHandler (put "stop" "7") running = Some (w', []) ∧
    registry w' !! "7" = None ∧
    traversers w' =
      <[0 := (chain.Stop (chain.Run_enter (created diamond))).1]> (traversers running) ∧
    goroutines w' = goroutines running ∧
    ∀ c ctx',
      c ≠ newJobChain →
      Method (Request_ ctx') = verb c →
      Arguments ctx' !! 1 = Some "7" →
      demo.step (Serve c ctx') w' =
        Some (w', [APIError ErrNotFound
                     "Can't retrieve traverser from repo (error: traverser not found)."]).
Proof.
  apply (on_demo stopped_chain_is_unknown (put "stop" "7") running "7" 0
           (chain.Run_enter (created diamond))).
  - reflexivity.
  - reflexivity.
  - reflexivity.
  - vm_compute. reflexivity.
  - reflexivity.
Defined.

(** A status query and a POST of the diamond at start-up. *)
Lemma fresh_api_knows_no_request_witness :
  demo.step (Serve statusJobChain (get "status" "7")) start_up =
    Some (start_up,
          [APIError ErrNotFound
             "Can't retrieve traverser from repo (error: traverser not found)."]) ∧
  ∃ w' : demo.World,
    demo.step (Serve newJobChain (post "diamond")) start_up = Some (w', []) ∧
    registry w' !! requestIdStr_of diamond = Some 0 ∧
    traversers w' = [created diamond].
Proof.
  destruct (on_demo fresh_api_knows_no_request [] () ()) as [Hno Hpost].
  split.
  - apply (Hno statusJobChain (get "status" "7") "7"); [done | | ]; reflexivity.
  - apply (Hpost (post "diamond") diamond (created diamond)).
    + reflexivity.
    + reflexivity.
    + vm_compute. reflexivity.
Defined.

(** The diamond, request 7, and then the chain of one job, request 10. *)
Lemma distinct_ids_both_register_witness :
  requestIdStr_of diamond ≠ requestIdStr_of solo ∧
  ∃ w' : demo.World,
    api.run json_Decode_solo demo.json_MarshalIndent demo.os_Hostname
      (@chain.NewTraverser unit unit) chain.Run_enter
      (chain.Run_return jobs_succeed) chain.Stop chain.Status_
      [Serve newJobChain (post "diamond"); Serve newJobChain (post "solo")]
      start_up = Some w' ∧
    registry w' !! requestIdStr_of diamond = Some (length (traversers start_up)) ∧
    registry w' !! requestIdStr_of solo = Some (S (length (traversers start_up))) ∧
    traversers w' = traversers start_up ++ [created diamond; created solo].
Proof.
  apply (distinct_ids_both_register json_Decode_solo demo.json_MarshalIndent
           demo.os_Hostname (@chain.NewTraverser unit unit) chain.Run_enter
           (chain.Run_return jobs_succeed) chain.Stop chain.Status_
           (post "diamond") (post "solo") start_up diamond solo
           (created diamond) (created solo) 7%N 10%N).
  - reflexivity.
  - reflexivity.
  - reflexivity.
  - reflexivity.
  - reflexivity.
  - reflexivity.
  - reflexivity.
  - reflexivity.
  - discriminate.
  - vm_compute. reflexivity.
  - vm_compute. reflexivity.
  - reflexivity.
  - reflexivity.
Defined.

(** The diamond is started, stopped while in [Run], and posted again. *)
Lemma stale_goroutine_unregisters_new_chain_witness :
  ∃ w1 w2 : demo.World,
    demo.run [Serve startJobChain (put "start" "7"); Move 0;
              Serve stopJobChain (put "stop" "7");
              Serve newJobChain (post "diamond")] registered = Some w1 ∧
    registry w1 !! "7" = Some 1 ∧
    traversers w1 !! 1 = Some (created diamond) ∧
    demo.run [Move 0; Move 0] w1 = Some w2 ∧
    registry w2 !! "7" = None ∧
    traversers w2 !! 1 = Some (created diamond) ∧
    ∀ i g, goroutines w2 !! i = Some g → g_traverser g ≠ 1.
Proof.
  apply (on_demo stale_goroutine_unregisters_new_chain
           (put "start" "7") (put "stop" "7") (post "diamond") registered
           "7" 0 (created diamond) diamond (created diamond)).
  - apply registered_well_formed.
  - reflexivity.
  - vm_compute. reflexivity.
  - reflexivity.
  - reflexivity.
  - reflexivity.
  - reflexivity.
  - reflexivity.
  - reflexivity.
  - reflexivity.
  - reflexivity.
  - vm_compute. reflexivity.
Defined.

(** Two start requests for the registered diamond. *)
Lemma start_twice_runs_twice_witness :
  ∃ w' : demo.World,
    demo.run [Serve startJobChain (put "start" "7");
              Serve startJobChain (put "start" "7");
              Move 0; Move 1] registered = Some w' ∧
    goroutines w' =
      goroutines registered ++
        [{| g_traverser := 0; g_requestIdStr := "7"; g_point := InRun |};
         {| g_traverser := 0; g_requestIdStr := "7"; g_point := InRun |}] ∧
    traversers w' =
      <[0 := chain.Run_enter (chain.Run_enter (created diamond))]>
        (traversers registered) ∧
    registry w' = registry registered.
Proof.
  apply (on_demo start_twice_runs_twice (put "start" "7") (put "start" "7")
           registered "7" 0 (created diamond)).
  - reflexivity.
  - vm_compute. reflexivity.
  - reflexivity.
  - reflexivity.
  - reflexivity.
  - reflexivity.
Defined.

(** C7 as stated fails: it is not so that in every process reached from
    start-up the traverser of a goroutine that has not returned from [Run]
    is still registered under its request id.  The diamond is registered
    and started, its goroutine enters [Run], and a stop request removes
    the traverser: the goroutine is inside [Run] and "7" is unknown.  When
    [Run] then returns, the goroutine's removal changes nothing. *)
Lemma removed_while_run_is_going :
  ¬ (∀ (moves : list Action) (w : demo.World) i g,
       demo.run moves start_up = Some w →
       goroutines w !! i = Some g →
       progress (g_point g) < progress RunReturned →
       registry w !! g_requestIdStr g = Some (g_traverser g)) ∧
  ∃ w1 w2 : demo.World,
    demo.run [Move 0] stopped = Some w1 ∧
    g_point <$> goroutines w1 !! 0 = Some RunReturned ∧
    demo.run [Move 0] w1 = Some w2 ∧
    g_point <$> goroutines w2 !! 0 = Some Finished ∧
    registry w2 = registry w1.
Proof.
  split.
  - intros H.
    specialize (H [Serve newJobChain (post "diamond");
                   Serve startJobChain (put "start" "7");
                   Move 0;
                   Serve stopJobChain (put "stop" "7")]
                  stopped 0
                  {| g_traverser := 0; g_requestIdStr := "7"; g_point := InRun |}).
    assert (registry stopped !! "7" = Some 0) as Hreg.
    { apply H; [vm_compute; reflexivity | reflexivity | simpl; lia]. }
    vm_compute in Hreg. discriminate Hreg.
  - eexists _, _. split; [vm_compute; reflexivity |].
    split; [reflexivity |]. split; [vm_compute; reflexivity |].
    split; reflexivity.
Qed.

(** C7, as the controllers have it, on the diamond: the start request,
    the three moves of its goroutine, and a stop request that comes while
    [Run] is going. *)
Lemma start_removes_after_run_unless_stopped_witness :
  (∃ w' : demo.World,
     demo.startJobChainHandler (put "start" "7") registered =
       Some (w', [HeaderSet "Location" "runner-1/api/v1/job-chains/7"]) ∧
     goroutines w' =
       [{| g_traverser := 0; g_requestIdStr := "7"; g_point := Spawned |}] ∧
     traversers w' = traversers registered ∧
     registry w' = registry registered) ∧
  (∃ v' : demo.World,
     go_step chain.Run_enter (chain.Run_return jobs_succeed) 0 started = Some v' ∧
     registry v' = registry started ∧
     traversers v' = <[0 := chain.Run_enter (created diamond)]> (traversers started) ∧
     g_point <$> goroutines v' !! 0 = Some InRun) ∧
  (∃ v' : demo.World,
     go_step chain.Run_enter (chain.Run_return jobs_succeed) 0 running = Some v' ∧
     registry v' = registry running ∧
     traversers v' =
       <[0 := chain.Run_return jobs_succeed (chain.Run_enter (created diamond))]>
         (traversers running) ∧
     g_point <$> goroutines v' !! 0 = Some RunReturned) ∧
  (∃ v' : demo.World,
     go_step chain.Run_enter (chain.Run_return jobs_succeed) 0 returned = Some v' ∧
     registry v' = chain.Remove "7" (registry returned) ∧
     registry v' !! "7" = None ∧
     traversers v' = traversers returned ∧
     g_point <$> goroutines v' !! 0 = Some Finished) ∧
  (∃ v' : demo.World,
     demo.stopJobChainHandler (put "stop" "7") running = Some (v', []) ∧
     registry v' !! "7" = None ∧
     traversers v' =
       <[0 := (chain.Stop (chain.Run_enter (created diamond))).1]>
         (traversers running) ∧
     goroutines v' = goroutines running).
Proof.
  destruct (start_removes_after_run_unless_stopped demo.os_Hostname
              chain.Run_enter (chain.Run_return jobs_succeed) chain.Stop
              (put "start" "7") registered "7" 0 eq_refl eq_refl eq_refl)
    as (Hstart & Hmoves & Hstop).
  split; [exact Hstart |].
  split; [exact (Hmoves started 0 (created diamond) Spawned eq_refl eq_refl) |].
  split.
  { apply (Hmoves running 0 (chain.Run_enter (created diamond)) InRun);
      vm_compute; reflexivity. }
  split.
  { apply (Hmoves returned 0
             (chain.Run_return jobs_succeed (chain.Run_enter (created diamond)))
             RunReturned); vm_compute; reflexivity. }
  apply (Hstop running (put "stop" "7") (chain.Run_enter (created diamond)));
    vm_compute; reflexivity.
Defined.

End more_on_the_demo.
